(** * nodejs-perf-lab: cache-aside handlers, metrics and bottleneck scenarios

    A shallow embedding of the request handlers of [src/routes/users.js],
    [src/routes/products.js] and [src/routes/orders.js], of the metric
    declarations of [src/metrics.js], of the request-metrics middleware of
    [src/app.js] and of [src/bottlenecks/scenarios.js].

    The handlers are asynchronous JavaScript functions that talk to a Redis
    server, to MongoDB and to the process clock.  They are embedded as state
    transformers over a [World] (what the process and the Redis server hold),
    in an error monad (a JavaScript exception is a [Throw]); everything the
    outside supplies to one request (clock readings, the Redis server's time
    and availability, the answers of the database, the JavaScript built-ins
    kept abstract) is gathered in an [Env]. *)

From stdpp Require Import base gmap strings list pretty.
From Stdlib Require Import Ascii ZArith QArith Lia.

Local Open Scope Z_scope.
Set Warnings "-register-all".

(** ** JavaScript values and coercions *)

Module JS.

(** Values that travel through request bodies, query results and responses.
    Numbers are the integer-valued ones; [NaN] is [None] where a number is
    computed ([parseInt]). *)
Inductive jsval :=
| JUndefined
| JNull
| JBool (b : bool)
| JNum (n : Z)
| JStr (s : string)
| JArr (items : list jsval)
| JObj (fields : list (string * jsval)).

(** [if (v)] *)
Definition truthy (v : jsval) : bool :=
  match v with
  | JUndefined | JNull => false
  | JBool b => b
  | JNum n => negb (n =? 0)
  | JStr s => negb (String.eqb s "")
  | JArr _ | JObj _ => true
  end.

(** [if (s)] for a string that may be missing (undefined, or the null of a
    Redis GET). *)
Definition truthy_str (r : option string) : bool :=
  match r with
  | Some s => negb (String.eqb s "")
  | None => false
  end.

(** [x || d] for a query-string field: undefined and the empty string are
    falsy. *)
Definition or_else (x : option string) (d : string) : string :=
  match x with
  | Some s => if String.eqb s "" then d else s
  | None => d
  end.

(** [const { page = d } = req.query]: the default applies to undefined only.
    The default is a number in the source; it is used by [parseInt] and in a
    template literal only, where it reads as its decimal text. *)
Definition defaulted (x : option string) (d : string) : string :=
  match x with Some s => s | None => d end.

Fixpoint join (sep : string) (l : list string) : string :=
  match l with
  | [] => ""
  | [s] => s
  | s :: rest => s +:+ sep +:+ join sep rest
  end.

(** ToString, as member access [o[v]] and template literals apply it, where
    it succeeds (see [convertible]). *)
Fixpoint to_string (v : jsval) : string :=
  match v with
  | JUndefined => "undefined"
  | JNull => "null"
  | JBool true => "true"
  | JBool false => "false"
  | JNum n => pretty n
  | JStr s => s
  | JArr items =>
      join "," (map (fun x => match x with
                              | JUndefined | JNull => ""
                              | _ => to_string x
                              end) items)
  | JObj _ => "[object Object]"
  end.

(** Whether ToString succeeds.  An object of a request body has no
    function among its properties: one with a property [toString] of its own
    hides the inherited method and cannot be converted, and an array cannot
    if one of its elements cannot. *)
Fixpoint convertible (v : jsval) : bool :=
  match v with
  | JArr items => forallb convertible items
  | JObj fields => negb (existsb (fun field => String.eqb "toString" field.1) fields)
  | _ => true
  end.

(** [o.k] on a value. *)
Fixpoint assoc (k : string) (fields : list (string * jsval)) : jsval :=
  match fields with
  | [] => JUndefined
  | (k', v) :: rest => if String.eqb k k' then v else assoc k rest
  end.

Definition get_prop (k : string) (o : jsval) : jsval :=
  match o with
  | JObj fields => assoc k fields
  | _ => JUndefined
  end.

(** [o.k = v]: an existing property keeps its place, a new one goes last. *)
Fixpoint assign (k : string) (v : jsval) (fields : list (string * jsval))
  : list (string * jsval) :=
  match fields with
  | [] => [(k, v)]
  | (k', v') :: rest =>
      if String.eqb k k' then (k, v) :: rest else (k', v') :: assign k v rest
  end.

Definition set_prop (k : string) (v : jsval) (o : jsval) : jsval :=
  match o with
  | JObj fields => JObj (assign k v fields)
  | _ => o
  end.

(** *** parseInt *)

(** White space and line ends, among the characters a [string] has here
    (codes below 256): tab to carriage return, space, no-break space. *)
Definition is_space (c : ascii) : bool :=
  let n := N_of_ascii c in
  ((9 <=? n) && (n <=? 13) || (n =? 32) || (n =? 160))%N.

Fixpoint skip_space (s : string) : string :=
  match s with
  | String c s' => if is_space c then skip_space s' else s
  | EmptyString => s
  end.

Definition digit_value (c : ascii) : option Z :=
  let n := Z.of_N (N_of_ascii c) in
  if (48 <=? n) && (n <=? 57) then Some (n - 48)
  else if (97 <=? n) && (n <=? 122) then Some (n - 87)
  else if (65 <=? n) && (n <=? 90) then Some (n - 55)
  else None.

(** The longest prefix of digits of the radix; [acc] is [None] until a digit
    has been read. *)
Fixpoint digits (radix : Z) (s : string) (acc : option Z) : option Z :=
  match s with
  | EmptyString => acc
  | String c s' =>
      match digit_value c with
      | Some d =>
          if d <? radix
          then digits radix s' (Some (default 0 acc * radix + d))
          else acc
      | None => acc
      end
  end.

(** [parseInt(x)] with no radix; [None] is NaN.  The value is the exact
    integer read: the engine's is the nearest double, which is that integer
    below 2^53 in absolute value. *)
Definition parseInt (x : option string) : option Z :=
  let s := skip_space (defaulted x "undefined") in
  let '(sign, s) :=
    match s with
    | String "-" r => (-1, r)
    | String "+" r => (1, r)
    | _ => (1, s)
    end in
  let '(radix, s) :=
    match s with
    | String "0" (String "x" r) => (16, r)
    | String "0" (String "X" r) => (16, r)
    | _ => (10, s)
    end in
  (fun v => sign * v) <$> digits radix s None.

(** [n || d] for a number: NaN and 0 are falsy. *)
Definition or_num (n : option Z) (d : Z) : Z :=
  match n with
  | Some v => if v =? 0 then d else v
  | None => d
  end.

(** [parseFloat(s)] is kept symbolic: the handlers only pass it on to the
    database. *)
Inductive jsfloat := ParsedFloat (text : string).
Definition parseFloat (s : string) : jsfloat := ParsedFloat s.

End JS.
Export JS.

(** ** Outcomes of a computation *)

(** [Ok]: the awaited value; [Throw]: an exception (its [message]);
    [Pending]: a loop of the model was cut off before the code finished. *)
Inductive result (A : Type) :=
| Ok (a : A)
| Throw (message : string)
| Pending.
Arguments Ok {A} a.
Arguments Throw {A} message.
Arguments Pending {A}.

(** ** Metrics ([src/metrics.js])

    The metrics are objects of the prom-client package.  The file declares
    them (names, label names, bucket boundaries); what [inc] and [observe] do
    with a declared metric is the package's business and is modelled here. *)

Module Metrics.

(** [buckets] of [http_request_duration_seconds]. *)
Definition httpDuration_buckets : list Q :=
  [1#10; 3#10; 5#10; 7#10; 1#1; 3#1; 5#1; 7#1; 10#1]%Q.

(** [buckets] of [db_query_duration_seconds]. *)
Definition dbQueryDuration_buckets : list Q :=
  [1#1000; 5#1000; 1#100; 5#100; 1#10; 5#10; 1#1; 2#1; 5#1]%Q.

(** The value a histogram holds for one label tuple: per declared boundary
    its cumulative counter, then the running sum and count. *)
Record HistValue := mkHist {
  bucketValues : list (Q * nat);
  h_sum : Q;
  h_count : nat
}.

(** A label tuple starts with all counters at zero. *)
Definition createBaseValues (upperBounds : list Q) : HistValue :=
  mkHist (map (fun b => (b, O)) upperBounds) 0%Q O.

(** One boundary's counter, on an observation of [v]. *)
Definition bump (v : Q) (bc : Q * nat) : Q * nat :=
  if Qle_bool v (fst bc) then (fst bc, S (snd bc)) else bc.

(** Modelled from the spec: [Histogram.observe] is code of the prom-client
    package, which is not among the sources.  "Each observation increments
    exactly one cumulative bucket counter per boundary >= the observed value,
    plus a running sum and count." *)
Definition observe_value (v : Q) (h : HistValue) : HistValue :=
  mkHist (map (bump v) (bucketValues h)) (h_sum h + v)%Q (S (h_count h)).

(** [histogram.labels(...).observe(v)]: the label tuple is created on first
    use. *)
Definition observe (upperBounds : list Q) (labels : list string) (v : Q)
    (m : gmap (list string) HistValue) : gmap (list string) HistValue :=
  <[labels := observe_value v (default (createBaseValues upperBounds) (m !! labels))]> m.

(** Modelled from the spec: [counter.labels(...).inc()], also code of
    prom-client, "increments a named counter for an enumerated label tuple,
    creating the label combination lazily on first use". *)
Definition inc (labels : list string) (m : gmap (list string) nat)
  : gmap (list string) nat :=
  <[labels := S (default O (m !! labels))]> m.

Definition counter_value (labels : list string) (m : gmap (list string) nat) : nat :=
  default O (m !! labels).

(** A histogram after a sequence of labelled observations, from its
    registration on. *)
Definition recorded (upperBounds : list Q) (samples : list (list string * Q))
  : gmap (list string) HistValue :=
  foldl (fun m sample => observe upperBounds sample.1 sample.2 m) ∅ samples.

(** In a snapshot, a larger boundary never has the smaller counter. *)
Definition ordered_counts (h : HistValue) : Prop :=
  forall b c b' c',
    In (b, c) (bucketValues h) -> In (b', c') (bucketValues h) ->
    (b' <= b)%Q -> (c' <= c)%nat.

(** The shape every recorded histogram value has. *)
Definition well_formed (upperBounds : list Q) (h : HistValue) : Prop :=
  map fst (bucketValues h) = upperBounds
  /\ ordered_counts h
  /\ forall b c, In (b, c) (bucketValues h) -> (c <= h_count h)%nat.

Fixpoint strictly_increasing (l : list Q) : bool :=
  match l with
  | [] => true
  | b :: rest =>
      match rest with
      | [] => true
      | b' :: _ => negb (Qle_bool b' b) && strictly_increasing rest
      end
  end.

End Metrics.
Export Metrics.

(** ** The Redis server

    The four commands the handlers send (GET, SETEX, KEYS, DEL), as the
    server runs them.  The server is not part of the repository; the model
    keeps what the commands are documented to do: values with a time to live,
    glob-style patterns, deletion by key. *)

Module Redis.

(** What the server holds: per key its string value and the instant
    (server time, milliseconds) at which the key expires. *)
Abbreviation store := (gmap string (string * Z)).

(** An entry is visible while it has time left to live. *)
Definition live (now : Z) (entry : string * Z) : bool := now <? snd entry.

(** GET *)
Definition get (now : Z) (key : string) (s : store) : option string :=
  match s !! key with
  | Some entry => if live now entry then Some (fst entry) else None
  | None => None
  end.

(** SETEX key seconds value *)
Definition setex (now : Z) (key : string) (seconds : Z) (value : string)
    (s : store) : store :=
  <[key := (value, now + seconds * 1000)]> s.

(** Glob-style patterns of KEYS: a star matches any run of characters, a
    question mark any one character, a backslash makes the next character
    literal, brackets enclose a class (a leading caret complements it, a dash
    between two characters is a range), anything else matches itself. *)
Definition ascii_le (a b : ascii) : bool := (N_of_ascii a <=? N_of_ascii b)%N.

(** Scans a class after its opening bracket (and caret); gives whether [c] is
    in it, and the pattern after the closing bracket. *)
Fixpoint class_match (c : ascii) (p : string) (found : bool) : bool * string :=
  match p with
  | EmptyString => (found, EmptyString)
  | String "]" rest => (found, rest)
  | String "\" (String x rest) => class_match c rest (found || Ascii.eqb x c)
  | String lo (String "-" (String hi rest)) =>
      let inside :=
        if ascii_le lo hi then ascii_le lo c && ascii_le c hi
        else ascii_le hi c && ascii_le c lo in
      class_match c rest (found || inside)
  | String x rest => class_match c rest (found || Ascii.eqb x c)
  end.

Fixpoint glob_match (fuel : nat) (p s : string) : bool :=
  match fuel with
  | O => false
  | S fuel' =>
      match p with
      | EmptyString => match s with EmptyString => true | _ => false end
      | String "*" p' =>
          (fix star (s : string) : bool :=
             glob_match fuel' p' s
             || match s with
                | EmptyString => false
                | String _ s' => star s'
                end) s
      | String "?" p' =>
          match s with
          | EmptyString => false
          | String _ s' => glob_match fuel' p' s'
          end
      | String "[" p' =>
          match s with
          | EmptyString => false
          | String c s' =>
              let '(negated, p1) :=
                match p' with
                | String "^" r => (true, r)
                | _ => (false, p')
                end in
              let '(found, p2) := class_match c p1 false in
              if xorb negated found then glob_match fuel' p2 s' else false
          end
      | String "\" (String x p') =>
          match s with
          | EmptyString => false
          | String c s' => Ascii.eqb x c && glob_match fuel' p' s'
          end
      | String x p' =>
          match s with
          | EmptyString => false
          | String c s' => Ascii.eqb x c && glob_match fuel' p' s'
          end
      end
  end.

(** Every step uses up a character of the pattern, so its length is fuel
    enough. *)
Definition glob (pattern s : string) : bool :=
  glob_match (S (String.length pattern)) pattern s.

(** KEYS pattern: the visible keys the pattern matches. *)
Definition keys (now : Z) (pattern : string) (s : store) : list string :=
  (filter (fun kv => live now kv.2 && glob pattern kv.1 = true) (map_to_list s)).*1.

(** DEL key [key ...] *)
Definition del (ks : list string) (s : store) : store := foldr delete s ks.

(** A pattern character that stands for itself. *)
Definition plain (c : ascii) : bool :=
  negb (Ascii.eqb c "*" || Ascii.eqb c "?" || Ascii.eqb c "[" || Ascii.eqb c "\").

Fixpoint literal (p : string) : bool :=
  match p with
  | EmptyString => true
  | String c p' => plain c && literal p'
  end.

End Redis.

(** ** The world and the environment of a request *)

(** Database operations, as the handlers issue them. *)
Inductive DbQuery :=
| UserFind (skip limit : Z)
| UserCountRecentLogins (since : Z)
| UserSearch (q : option string)
| UserFindById (id : jsval) (select : string)
| UserSave (doc : jsval)
| ProductFind (category : option string)
    (price : option (option jsfloat * option jsfloat)) (skip limit : option Z)
| ProductFindById (id : string)
| ProductFindByItem (productId : jsval)
| ProductSave (doc : jsval)
| OrderFind (status userId : option string) (skip limit : option Z)
| OrderFindById (id : string)
| OrderFindByIdAndUpdate (id : string) (status : jsval) (updatedAt : Z)
| OrderSave (doc : jsval).

(** The answer of an outside service: a value, or a failure message. *)
Inductive reply (A : Type) :=
| Reply (a : A)
| Failure (message : string).
Arguments Reply {A} a.
Arguments Failure {A} message.

(** What the process and the Redis server hold. *)
Record World := mkWorld {
  redis : gmap string (string * Z);
  db_log : list DbQuery;                       (* newest first *)
  cacheHitRate : gmap (list string) nat;       (* cache_operations_total *)
  dbQueryDuration : gmap (list string) HistValue;
  httpDuration : gmap (list string) HistValue;
  httpRequestCounter : gmap (list string) nat;
  memoryLeakGauge : Z;
  leakyArray : list jsval;
  pbkdf2_calls : nat;                          (* key derivations done *)
  allocated : list Z;                          (* lengths of the arrays built *)
  timers : list Z;                             (* delays awaited, newest first *)
  connections : nat                            (* connections opened, never closed *)
}.

Definition with_redis (f : gmap string (string * Z) -> gmap string (string * Z))
    (w : World) : World :=
  mkWorld (f (redis w)) (db_log w) (cacheHitRate w) (dbQueryDuration w)
    (httpDuration w) (httpRequestCounter w) (memoryLeakGauge w) (leakyArray w)
    (pbkdf2_calls w) (allocated w) (timers w) (connections w).

Definition with_db_log (f : list DbQuery -> list DbQuery) (w : World) : World :=
  mkWorld (redis w) (f (db_log w)) (cacheHitRate w) (dbQueryDuration w)
    (httpDuration w) (httpRequestCounter w) (memoryLeakGauge w) (leakyArray w)
    (pbkdf2_calls w) (allocated w) (timers w) (connections w).

Definition with_cacheHitRate (f : gmap (list string) nat -> gmap (list string) nat)
    (w : World) : World :=
  mkWorld (redis w) (db_log w) (f (cacheHitRate w)) (dbQueryDuration w)
    (httpDuration w) (httpRequestCounter w) (memoryLeakGauge w) (leakyArray w)
    (pbkdf2_calls w) (allocated w) (timers w) (connections w).

Definition with_dbQueryDuration
    (f : gmap (list string) HistValue -> gmap (list string) HistValue)
    (w : World) : World :=
  mkWorld (redis w) (db_log w) (cacheHitRate w) (f (dbQueryDuration w))
    (httpDuration w) (httpRequestCounter w) (memoryLeakGauge w) (leakyArray w)
    (pbkdf2_calls w) (allocated w) (timers w) (connections w).

Definition with_httpDuration
    (f : gmap (list string) HistValue -> gmap (list string) HistValue)
    (w : World) : World :=
  mkWorld (redis w) (db_log w) (cacheHitRate w) (dbQueryDuration w)
    (f (httpDuration w)) (httpRequestCounter w) (memoryLeakGauge w) (leakyArray w)
    (pbkdf2_calls w) (allocated w) (timers w) (connections w).

Definition with_httpRequestCounter
    (f : gmap (list string) nat -> gmap (list string) nat) (w : World) : World :=
  mkWorld (redis w) (db_log w) (cacheHitRate w) (dbQueryDuration w)
    (httpDuration w) (f (httpRequestCounter w)) (memoryLeakGauge w) (leakyArray w)
    (pbkdf2_calls w) (allocated w) (timers w) (connections w).

Definition with_leak (body : jsval) (w : World) : World :=
  let leaky := leakyArray w ++ [JArr (repeat body 1000)] in
  mkWorld (redis w) (db_log w) (cacheHitRate w) (dbQueryDuration w)
    (httpDuration w) (httpRequestCounter w)
    (Z.of_nat (length leaky) * 1000 * 100) leaky
    (pbkdf2_calls w) (allocated w) (timers w) (connections w).

Definition with_pbkdf2 (w : World) : World :=
  mkWorld (redis w) (db_log w) (cacheHitRate w) (dbQueryDuration w)
    (httpDuration w) (httpRequestCounter w) (memoryLeakGauge w) (leakyArray w)
    (S (pbkdf2_calls w)) (allocated w) (timers w) (connections w).

Definition with_allocation (len : Z) (w : World) : World :=
  mkWorld (redis w) (db_log w) (cacheHitRate w) (dbQueryDuration w)
    (httpDuration w) (httpRequestCounter w) (memoryLeakGauge w) (leakyArray w)
    (pbkdf2_calls w) (len :: allocated w) (timers w) (connections w).

Definition with_timer (delay : Z) (w : World) : World :=
  mkWorld (redis w) (db_log w) (cacheHitRate w) (dbQueryDuration w)
    (httpDuration w) (httpRequestCounter w) (memoryLeakGauge w) (leakyArray w)
    (pbkdf2_calls w) (allocated w) (delay :: timers w) (connections w).

Definition with_connection (w : World) : World :=
  mkWorld (redis w) (db_log w) (cacheHitRate w) (dbQueryDuration w)
    (httpDuration w) (httpRequestCounter w) (memoryLeakGauge w) (leakyArray w)
    (pbkdf2_calls w) (allocated w) (timers w) (S (connections w)).

(** What the outside supplies while one request is served. *)
Record Env := mkEnv {
  (** the successive readings of [Date.now()], milliseconds *)
  clock : nat -> Z;
  (** the server's time when it runs the n-th Redis command of the request *)
  redis_time : nat -> Z;
  (** whether that command fails because the server cannot be reached *)
  redis_fault : nat -> option string;
  (** the database's answers: [find], [countDocuments], and the operations
      that give one document or null *)
  db_find : DbQuery -> reply (list jsval);
  db_count : DbQuery -> reply Z;
  db_one : DbQuery -> reply jsval;
  db_save : DbQuery -> reply unit;
  (** [new Model(fields)]: the document Mongoose builds *)
  new_document : string -> jsval -> jsval;
  (** [doc.k = v] on a Mongoose document: the document as it then serialises *)
  document_assign : string -> jsval -> jsval -> jsval;
  JSON_stringify : jsval -> string;
  JSON_parse : string -> reply jsval;
  (** [new RegExp(q, 'i')]: the syntax error of the pattern, if it has one *)
  RegExp_error : option string -> option string;
  bcrypt_hash : jsval -> Z -> reply string
}.

(** ** The monad of handlers *)

Definition M (A : Type) : Type := World -> result A * World.

#[global] Instance M_ret : MRet M := fun A a w => (Ok a, w).

#[global] Instance M_bind : MBind M := fun A B f m w =>
  match m w with
  | (Ok a, w') => f a w'
  | (Throw msg, w') => (Throw msg, w')
  | (Pending, w') => (Pending, w')
  end.

Definition throw {A} (message : string) : M A := fun w => (Throw message, w).

Definition pending {A} : M A := fun w => (Pending, w).

(** [try { body } catch (error) { handler(error.message) }] *)
Definition try_catch {A} (body : M A) (handler : string -> M A) : M A := fun w =>
  match body w with
  | (Throw msg, w') => handler msg w'
  | r => r
  end.

Definition modify (f : World -> World) : M unit := fun w => (Ok tt, f w).

Definition of_reply {A} (r : reply A) : M A :=
  match r with
  | Reply a => mret a
  | Failure msg => throw msg
  end.

(** A database operation: it reaches the database, then answers. *)
Definition db_call {A} (q : DbQuery) (answer : reply A) : M A :=
  modify (with_db_log (cons q));; of_reply answer.

(** The n-th Redis command of the request: one that reads, one that
    writes. *)
Definition redis_read {A} (e : Env) (n : nat)
    (run : Z -> gmap string (string * Z) -> A) : M A :=
  fun w =>
    match redis_fault e n with
    | Some msg => (Throw msg, w)
    | None => (Ok (run (redis_time e n) (redis w)), w)
    end.

Definition redis_write (e : Env) (n : nat)
    (run : Z -> gmap string (string * Z) -> gmap string (string * Z)) : M unit :=
  fun w =>
    match redis_fault e n with
    | Some msg => (Throw msg, w)
    | None => (Ok tt, with_redis (run (redis_time e n)) w)
    end.

Definition redis_get (e : Env) (n : nat) (key : string) : M (option string) :=
  redis_read e n (fun now s => Redis.get now key s).

Definition redis_setex (e : Env) (n : nat) (key : string) (seconds : Z)
    (value : string) : M unit :=
  redis_write e n (fun now s => Redis.setex now key seconds value s).

Definition redis_keys (e : Env) (n : nat) (pattern : string) : M (list string) :=
  redis_read e n (fun now s => Redis.keys now pattern s).

(** DEL wants at least one key. *)
Definition redis_del (e : Env) (n : nat) (ks : list string) : M unit :=
  match ks with
  | [] => throw "ERR wrong number of arguments for 'del' command"
  | _ => redis_write e n (fun _ s => Redis.del ks s)
  end.

Definition counter_inc (labels : list string) : M unit :=
  modify (with_cacheHitRate (Metrics.inc labels)).

Definition dbQueryDuration_observe (labels : list string) (seconds : Q) : M unit :=
  modify (with_dbQueryDuration (Metrics.observe dbQueryDuration_buckets labels seconds)).

(** ** Bottleneck scenarios ([src/bottlenecks/scenarios.js]) *)

Module Scenarios.

(** A scenario takes the position [n] of the next clock reading and gives
    the position after it; [fuel] bounds the iterations of its loop. *)

(** [while (Date.now() - start < duration) body] *)
Fixpoint busy_loop (fuel : nat) (e : Env) (start duration : Z) (body : M unit)
    (n : nat) : M nat :=
  match fuel with
  | O => pending
  | S fuel' =>
      if clock e n - start <? duration
      then body;; busy_loop fuel' e start duration body (S n)
      else mret (S n)
  end.

(** [crypto.pbkdf2Sync('secret', 'salt', 100000, 64, 'sha512')] *)
Definition pbkdf2Sync : M unit := modify with_pbkdf2.

(** [await new Promise(resolve => setTimeout(resolve, delay))] *)
Definition sleep (delay : Z) : M unit := modify (with_timer delay).

(** [new Array(len).fill(x)]: a length outside 0 .. 2^32 - 1 is a
    RangeError of [new Array].  The room the engine has is not modelled:
    filling an array of a valid length is taken to succeed, where the engine
    gives up on the large ones. *)
Definition new_Array (len : Z) : M Z :=
  if (0 <=? len) && (len <? 2 ^ 32)
  then modify (with_allocation len);; mret len
  else throw "Invalid array length".

(** [async (duration = 1000) => ...] *)
Definition cpuIntensive (fuel : nat) (e : Env) (duration : option Z) (n : nat)
  : M nat :=
  let duration := default 1000 duration in
  let start := clock e n in
  busy_loop fuel e start duration pbkdf2Sync (S n).

(** [async (sizeMB = 50) => ...]; its value, the array's length, is dropped
    by the caller. *)
Definition memoryIntensive (e : Env) (sizeMB : option Z) (n : nat) : M nat :=
  let sizeMB := default 50 sizeMB in
  _ ← new_Array (sizeMB * 1024 * 1024 / 8);
  sleep 100;;
  mret n.

(** [async (duration = 500) => ...]; the loop body,
    [Math.sqrt(Math.random())], leaves no trace. *)
Definition blockEventLoop (fuel : nat) (e : Env) (duration : option Z) (n : nat)
  : M nat :=
  let duration := default 500 duration in
  let start := clock e n in
  busy_loop fuel e start duration (mret tt) (S n).

(** [async (delay = 2000) => ...] *)
Definition slowIO (delay : option Z) (n : nat) : M nat :=
  let delay := default 2000 delay in
  sleep delay;;
  mret n.

(** [async () => ...]: opens a connection and never closes it.
    [mongoose.createConnection] gives the connection at once, and awaiting
    it does not wait for the server: a connection that fails says so later,
    outside the handler. *)
Definition dbConnectionLeak (n : nat) : M nat :=
  modify with_connection;; mret n.

Inductive Scenario :=
| CpuIntensive | MemoryIntensive | BlockEventLoop | SlowIO | DbConnectionLeak.

(** The methods every object inherits from [Object.prototype]. *)
Inductive ObjectMethod :=
| constructor | defineGetter | defineSetter | hasOwnProperty | lookupGetter
| lookupSetter | isPrototypeOf | propertyIsEnumerable | toString | valueOf
| toLocaleString.

(** What [scenarios[key]] evaluates to. *)
Inductive Property :=
| PUndefined
| PScenario (s : Scenario)
| PInherited (m : ObjectMethod)
| PPrototype.                       (* the object [Object.prototype] itself *)

(** The own properties of the object literal [scenarios]. *)
Definition own_property (key : string) : option Scenario :=
  if String.eqb key "cpuIntensive" then Some CpuIntensive
  else if String.eqb key "memoryIntensive" then Some MemoryIntensive
  else if String.eqb key "blockEventLoop" then Some BlockEventLoop
  else if String.eqb key "slowIO" then Some SlowIO
  else if String.eqb key "dbConnectionLeak" then Some DbConnectionLeak
  else None.

(** The properties of [Object.prototype], which [scenarios] inherits. *)
Definition inherited_property (key : string) : Property :=
  if String.eqb key "__proto__" then PPrototype
  else if String.eqb key "constructor" then PInherited constructor
  else if String.eqb key "__defineGetter__" then PInherited defineGetter
  else if String.eqb key "__defineSetter__" then PInherited defineSetter
  else if String.eqb key "hasOwnProperty" then PInherited hasOwnProperty
  else if String.eqb key "__lookupGetter__" then PInherited lookupGetter
  else if String.eqb key "__lookupSetter__" then PInherited lookupSetter
  else if String.eqb key "isPrototypeOf" then PInherited isPrototypeOf
  else if String.eqb key "propertyIsEnumerable" then PInherited propertyIsEnumerable
  else if String.eqb key "toString" then PInherited toString
  else if String.eqb key "valueOf" then PInherited valueOf
  else if String.eqb key "toLocaleString" then PInherited toLocaleString
  else PUndefined.

(** [scenarios[scenario]]: own properties first, then the prototype's. *)
Definition scenarios (scenario : jsval) : Property :=
  let key := to_string scenario in
  match own_property key with
  | Some s => PScenario s
  | None => inherited_property key
  end.

(** [scenarios[scenario]()] for a scenario: no argument is passed, so each
    parameter takes its default. *)
Definition call_scenario (fuel : nat) (e : Env) (s : Scenario) (n : nat) : M nat :=
  match s with
  | CpuIntensive => cpuIntensive fuel e None n
  | MemoryIntensive => memoryIntensive e None n
  | BlockEventLoop => blockEventLoop fuel e None n
  | SlowIO => slowIO None n
  | DbConnectionLeak => dbConnectionLeak n
  end.

(** The same call for an inherited method, with [scenarios] as receiver
    and no argument: the two definers reject a missing function, the others
    return a value, which is dropped. *)
Definition call_inherited (m : ObjectMethod) (n : nat) : M nat :=
  match m with
  | defineGetter => throw "Object.prototype.__defineGetter__: Expecting function"
  | defineSetter => throw "Object.prototype.__defineSetter__: Expecting function"
  | _ => mret n
  end.

(** [createBottleneck: async (scenario) => { if (scenarios[scenario]) { await
    scenarios[scenario](); } }].  It is given the caller's argument list, of
    which it binds the first; the member access converts it to a string
    first, and throws if it cannot. *)
Definition createBottleneck (fuel : nat) (e : Env) (args : list jsval) (n : nat)
  : M nat :=
  let scenario := nth 0 args JUndefined in
  if convertible scenario then
    match scenarios scenario with
    | PUndefined => mret n
    | PScenario s => call_scenario fuel e s n
    | PInherited m => call_inherited m n
    | PPrototype => throw "scenarios[scenario] is not a function"
    end
  else throw "Cannot convert object to primitive value".

End Scenarios.
Export Scenarios.

(** ** Requests and responses *)

Record Request := mkRequest {
  query : gmap string string;      (* req.query *)
  params_id : string;              (* req.params.id *)
  body : jsval                     (* req.body *)
}.

Record Response := mkResponse {
  status : Z;
  payload : jsval
}.

(** [res.json(v)] *)
Definition res_json (v : jsval) : M Response := mret (mkResponse 200 v).

(** [res.status(code).json(v)] *)
Definition res_status_json (code : Z) (v : jsval) : M Response :=
  mret (mkResponse code v).

(** [res.status(500).json({ error: error.message })] *)
Definition internal_error (message : string) : M Response :=
  res_status_json 500 (JObj [("error", JStr message)]).

(** [JSON.parse(text)], which throws on a malformed text. *)
Definition parse (e : Env) (text : string) : M jsval := of_reply (JSON_parse e text).

(** [const { a, b } = req.body]: undefined and null cannot be destructured;
    [a] is the first property named. *)
Definition destructure (a : string) (v : jsval) : M unit :=
  match v with
  | JUndefined =>
      throw ("Cannot destructure property '" +:+ a
             +:+ "' of 'req.body' as it is undefined.")
  | JNull =>
      throw ("Cannot destructure property '" +:+ a
             +:+ "' of 'req.body' as it is null.")
  | _ => mret tt
  end.

(** [(Date.now() - startTime) / 1000] *)
Definition seconds (now startTime : Z) : Q := Qmake (now - startTime) 1000.

(** [const keys = await req.redis.keys(pattern);
     if (keys.length) { await req.redis.del(...keys); }],
    as the n-th and next Redis commands of the request. *)
Definition invalidate (e : Env) (n : nat) (pattern : string) : M unit :=
  keys ← redis_keys e n pattern;
  if negb (length keys =? 0)%nat then redis_del e (S n) keys else mret tt.

(** ** [src/routes/users.js] *)

Module Users.

(** [parseInt(req.query.page) || 1] and [parseInt(req.query.limit) || 10].
    Numbers are exact integers here; the code's are doubles, which agree
    with them as long as the page, the limit and the number of documents
    skipped stay below 2^53 in absolute value ([safe_paging] below). *)
Definition page (req : Request) : Z := or_num (parseInt (query req !! "page")) 1.
Definition limit (req : Request) : Z := or_num (parseInt (query req !! "limit")) 10.

(** [`users:${page}:${limit}`] *)
Definition cacheKey (req : Request) : string :=
  "users:" +:+ pretty (page req) +:+ ":" +:+ pretty (limit req).

(** The query of the list: [User.find().skip(skip).limit(limit).lean()]. *)
Definition find_query (req : Request) : DbQuery :=
  UserFind ((page req - 1) * limit req) (limit req).

(** [for (let user of users) { const loginCount = await
    User.countDocuments(...); user.recentLogins = loginCount; }]: the i-th
    clock reading dates the first document's query. *)
Fixpoint count_recent_logins (e : Env) (users : list jsval) (i : nat)
  : M (list jsval) :=
  match users with
  | [] => mret []
  | user :: rest =>
      let q := UserCountRecentLogins (clock e i - 86400000) in
      loginCount ← db_call q (db_count e q);
      rest' ← count_recent_logins e rest (S i);
      mret (set_prop "recentLogins" (JNum loginCount) user :: rest')
  end.

(** [router.get('/')] *)
Definition get_all (e : Env) (req : Request) : M Response :=
  let startTime := clock e 0 in
  try_catch
    (let cacheKey := cacheKey req in
     cached ← redis_get e 0 cacheKey;
     if truthy_str cached then
       counter_inc ["get"; "hit"];;
       v ← parse e (default "" cached);
       res_json v
     else
       counter_inc ["get"; "miss"];;
       users ← db_call (find_query req) (db_find e (find_query req));
       users ← count_recent_logins e users 1;
       redis_setex e 1 cacheKey 60 (JSON_stringify e (JArr users));;
       dbQueryDuration_observe ["find"; "users"]
         (seconds (clock e (S (length users))) startTime);;
       res_json (JArr users))
    internal_error.

(** [router.post('/')] *)
Definition post (fuel : nat) (e : Env) (req : Request) : M Response :=
  let startTime := clock e 0 in
  try_catch
    (destructure "username" (body req);;
     let username := get_prop "username" (body req) in
     let email := get_prop "email" (body req) in
     let password := get_prop "password" (body req) in
     let scenario := get_prop "scenario" (body req) in
     n ← (if truthy scenario then createBottleneck fuel e [scenario] 1 else mret 1%nat);
     hashedPassword ← of_reply (bcrypt_hash e password 12);
     modify (with_leak (body req));;
     let profile := get_prop "profile" (body req) in
     let user := new_document e "User"
       (JObj [("username", username); ("email", email);
              ("password", JStr hashedPassword);
              ("profile", if truthy profile then profile else JObj [])]) in
     db_call (UserSave user) (db_save e (UserSave user));;
     invalidate e 0 "users:*";;
     dbQueryDuration_observe ["insert"; "users"] (seconds (clock e n) startTime);;
     res_status_json 201 user)
    internal_error.

(** [router.get('/search')] *)
Definition get_search (e : Env) (req : Request) : M Response :=
  let q := query req !! "q" in
  let startTime := clock e 0 in
  try_catch
    (match RegExp_error e q with
     | Some msg => throw msg
     | None => mret tt
     end;;
     users ← db_call (UserSearch q) (db_find e (UserSearch q));
     dbQueryDuration_observe ["search"; "users"] (seconds (clock e 1) startTime);;
     res_json (JArr users))
    internal_error.

End Users.

(** ** [src/routes/products.js] *)

Module Products.

Definition category (req : Request) := query req !! "category".
Definition minPrice (req : Request) := query req !! "minPrice".
Definition maxPrice (req : Request) := query req !! "maxPrice".
Definition page (req : Request) := defaulted (query req !! "page") "1".
Definition limit (req : Request) := defaulted (query req !! "limit") "20".

(** [`products:${category || 'all'}:${minPrice || 0}:${maxPrice ||
    'max'}:${page}:${limit}`] *)
Definition cacheKey (req : Request) : string :=
  "products:" +:+ or_else (category req) "all" +:+ ":"
  +:+ or_else (minPrice req) "0" +:+ ":"
  +:+ or_else (maxPrice req) "max" +:+ ":"
  +:+ page req +:+ ":" +:+ limit req.

(** The query built from the filters, with [skip] and [limit]. *)
Definition find_query (req : Request) : DbQuery :=
  let skip :=
    p ← parseInt (Some (page req)); l ← parseInt (Some (limit req)); Some ((p - 1) * l) in
  ProductFind
    (if truthy_str (category req) then category req else None)
    (if truthy_str (minPrice req) || truthy_str (maxPrice req)
     then Some (if truthy_str (minPrice req)
                then parseFloat <$> minPrice req else None,
                if truthy_str (maxPrice req)
                then parseFloat <$> maxPrice req else None)
     else None)
    skip
    (parseInt (Some (limit req))).

(** [router.get('/')] *)
Definition get_all (e : Env) (req : Request) : M Response :=
  let startTime := clock e 0 in
  try_catch
    (let cacheKey := cacheKey req in
     cached ← redis_get e 0 cacheKey;
     if truthy_str cached then
       counter_inc ["get"; "hit"];;
       v ← parse e (default "" cached);
       res_json v
     else
       counter_inc ["get"; "miss"];;
       products ← db_call (find_query req) (db_find e (find_query req));
       redis_setex e 1 cacheKey 300 (JSON_stringify e (JArr products));;
       dbQueryDuration_observe ["find"; "products"] (seconds (clock e 1) startTime);;
       res_json (JArr products))
    internal_error.

(** [router.post('/')] *)
Definition post (e : Env) (req : Request) : M Response :=
  let startTime := clock e 0 in
  try_catch
    (let product := new_document e "Product" (body req) in
     db_call (ProductSave product) (db_save e (ProductSave product));;
     invalidate e 0 "products:*";;
     dbQueryDuration_observe ["insert"; "products"] (seconds (clock e 1) startTime);;
     res_status_json 201 product)
    internal_error.

(** [`product:${req.params.id}`] *)
Definition id_cacheKey (req : Request) : string := "product:" +:+ params_id req.

(** [router.get('/:id')] *)
Definition get_by_id (e : Env) (req : Request) : M Response :=
  let startTime := clock e 0 in
  try_catch
    (let cacheKey := id_cacheKey req in
     cached ← redis_get e 0 cacheKey;
     if truthy_str cached then
       counter_inc ["get"; "hit"];;
       v ← parse e (default "" cached);
       res_json v
     else
       counter_inc ["get"; "miss"];;
       let q := ProductFindById (params_id req) in
       product ← db_call q (db_one e q);
       if negb (truthy product) then
         res_status_json 404 (JObj [("error", JStr "Product not found")])
       else
         redis_setex e 1 cacheKey 600 (JSON_stringify e product);;
         dbQueryDuration_observe ["findById"; "products"]
           (seconds (clock e 1) startTime);;
         res_json product)
    internal_error.

End Products.

(** ** [src/routes/orders.js]

    The handlers that read orders, the one that creates an order and the
    one that updates a status. *)

Module Orders.

Definition order_status (req : Request) := query req !! "status".
Definition userId (req : Request) := query req !! "userId".
Definition page (req : Request) := defaulted (query req !! "page") "1".
Definition limit (req : Request) := defaulted (query req !! "limit") "10".

(** [`orders:${status || 'all'}:${userId || 'all'}:${page}:${limit}`] *)
Definition cacheKey (req : Request) : string :=
  "orders:" +:+ or_else (order_status req) "all" +:+ ":"
  +:+ or_else (userId req) "all" +:+ ":"
  +:+ page req +:+ ":" +:+ limit req.

Definition find_query (req : Request) : DbQuery :=
  let skip :=
    p ← parseInt (Some (page req)); l ← parseInt (Some (limit req)); Some ((p - 1) * l) in
  OrderFind
    (if truthy_str (order_status req) then order_status req else None)
    (if truthy_str (userId req) then userId req else None)
    skip
    (parseInt (Some (limit req))).

(** [for (let order of orders) { const user = await
    User.findById(order.userId).select('username email');
    order.userDetails = user; }] *)
Fixpoint fetch_user_details (e : Env) (orders : list jsval) : M (list jsval) :=
  match orders with
  | [] => mret []
  | order :: rest =>
      let q := UserFindById (get_prop "userId" order) "username email" in
      user ← db_call q (db_one e q);
      rest' ← fetch_user_details e rest;
      mret (set_prop "userDetails" user order :: rest')
  end.

(** [router.get('/')] *)
Definition get_all (e : Env) (req : Request) : M Response :=
  let startTime := clock e 0 in
  try_catch
    (let cacheKey := cacheKey req in
     cached ← redis_get e 0 cacheKey;
     if truthy_str cached then
       counter_inc ["get"; "hit"];;
       v ← parse e (default "" cached);
       res_json v
     else
       counter_inc ["get"; "miss"];;
       orders ← db_call (find_query req) (db_find e (find_query req));
       orders ← fetch_user_details e orders;
       redis_setex e 1 cacheKey 120 (JSON_stringify e (JArr orders));;
       dbQueryDuration_observe ["find"; "orders"] (seconds (clock e 1) startTime);;
       res_json (JArr orders))
    internal_error.

(** [`order:${req.params.id}`] *)
Definition id_cacheKey (req : Request) : string := "order:" +:+ params_id req.

(** [router.get('/:id')] *)
Definition get_by_id (e : Env) (req : Request) : M Response :=
  let startTime := clock e 0 in
  try_catch
    (let cacheKey := id_cacheKey req in
     cached ← redis_get e 0 cacheKey;
     if truthy_str cached then
       counter_inc ["get"; "hit"];;
       v ← parse e (default "" cached);
       res_json v
     else
       counter_inc ["get"; "miss"];;
       let q := OrderFindById (params_id req) in
       order ← db_call q (db_one e q);
       if negb (truthy order) then
         res_status_json 404 (JObj [("error", JStr "Order not found")])
       else
         let qu := UserFindById (get_prop "userId" order) "username email" in
         user ← db_call qu (db_one e qu);
         let order := document_assign e "userDetails" user order in
         redis_setex e 1 cacheKey 300 (JSON_stringify e order);;
         dbQueryDuration_observe ["findById"; "orders"]
           (seconds (clock e 1) startTime);;
         res_json order)
    internal_error.

(** [router.put('/:id/status')]; [new Date()] is the clock's second
    reading. *)
Definition put_status (e : Env) (req : Request) : M Response :=
  let startTime := clock e 0 in
  try_catch
    (destructure "status" (body req);;
     let q := OrderFindByIdAndUpdate (params_id req)
                (get_prop "status" (body req)) (clock e 1) in
     order ← db_call q (db_one e q);
     if negb (truthy order) then
       res_status_json 404 (JObj [("error", JStr "Order not found")])
     else
       redis_del e 0 [id_cacheKey req];;
       invalidate e 1 "orders:*";;
       dbQueryDuration_observe ["update"; "orders"] (seconds (clock e 2) startTime);;
       res_json order)
    internal_error.

(** The total of an order as the handler writes it, [totalAmount +=
    product.price * item.quantity] from 0.  Prices are floating-point
    numbers: the sum is kept as written and left to the engine. *)
Inductive jsnumber :=
| Zero
| PlusTimes (totalAmount : jsnumber) (price quantity : jsval).

(** The characters of a string, each as a string. *)
Fixpoint characters (s : string) : list jsval :=
  match s with
  | EmptyString => []
  | String c s' => JStr (String c "") :: characters s'
  end.

(** [for (let item of items)]: arrays and strings can be iterated, a string
    character by character; nothing else that a JSON body holds can. *)
Definition iterate (items : jsval) : M (list jsval) :=
  match items with
  | JArr l => mret l
  | JStr s => mret (characters s)
  | _ => throw "items is not iterable"
  end.

(** [item.productId]: undefined and null have no properties. *)
Definition productId (item : jsval) : M jsval :=
  match item with
  | JUndefined => throw "Cannot read properties of undefined (reading 'productId')"
  | JNull => throw "Cannot read properties of null (reading 'productId')"
  | _ => mret (get_prop "productId" item)
  end.

(** [for (let item of items) { const product = await
    Product.findById(item.productId); if (product) { totalAmount +=
    product.price * item.quantity; item.price = product.price; } }]: the
    items as the loop leaves them, and the total. *)
Fixpoint price_items (e : Env) (items : list jsval) (totalAmount : jsnumber)
  : M (list jsval * jsnumber) :=
  match items with
  | [] => mret ([], totalAmount)
  | item :: rest =>
      id ← productId item;
      let q := ProductFindByItem id in
      product ← db_call q (db_one e q);
      let price := get_prop "price" product in
      let item' := if truthy product then set_prop "price" price item else item in
      let totalAmount :=
        if truthy product
        then PlusTimes totalAmount price (get_prop "quantity" item)
        else totalAmount in
      priced ← price_items e rest totalAmount;
      mret (item' :: priced.1, priced.2)
  end.

(** [router.post('/')].  [new_Order] is [new Order({ userId, items,
    totalAmount, shippingAddress })], the document Mongoose builds from the
    four fields. *)
Definition post (fuel : nat) (e : Env)
    (new_Order : jsval -> jsval -> jsnumber -> jsval -> jsval) (req : Request)
  : M Response :=
  let startTime := clock e 0 in
  try_catch
    (destructure "userId" (body req);;
     let userId := get_prop "userId" (body req) in
     let items := get_prop "items" (body req) in
     let shippingAddress := get_prop "shippingAddress" (body req) in
     let scenario := get_prop "scenario" (body req) in
     n ← (if truthy scenario then createBottleneck fuel e [scenario] 1 else mret 1%nat);
     elements ← iterate items;
     priced ← price_items e elements Zero;
     let items := match items with JArr _ => JArr priced.1 | _ => items end in
     let order := new_Order userId items priced.2 shippingAddress in
     db_call (OrderSave order) (db_save e (OrderSave order));;
     invalidate e 0 "orders:*";;
     dbQueryDuration_observe ["insert"; "orders"] (seconds (clock e n) startTime);;
     res_status_json 201 order)
    internal_error.

End Orders.

(** ** The request-metrics middleware of [src/app.js] *)

(** The [finish] callback: [start] was read on arrival, [now] on finish. *)
Definition on_finish (start now : Z) (method route : string) (statusCode : Z)
  : M unit :=
  let duration := now - start in
  modify (with_httpDuration
            (Metrics.observe httpDuration_buckets [method; route; pretty statusCode]
               (Qmake duration 1000)));;
  modify (with_httpRequestCounter (Metrics.inc [method; route; pretty statusCode])).

(** ** The routes, by what they do with the cache *)

(** The read routes that go through the cache. *)
Inductive CachedRead :=
| UsersAll | ProductsAll | ProductById | OrdersAll | OrderById.

Definition cached_handler (r : CachedRead) : Env -> Request -> M Response :=
  match r with
  | UsersAll => Users.get_all
  | ProductsAll => Products.get_all
  | ProductById => Products.get_by_id
  | OrdersAll => Orders.get_all
  | OrderById => Orders.get_by_id
  end.

Definition cached_key (r : CachedRead) : Request -> string :=
  match r with
  | UsersAll => Users.cacheKey
  | ProductsAll => Products.cacheKey
  | ProductById => Products.id_cacheKey
  | OrdersAll => Orders.cacheKey
  | OrderById => Orders.id_cacheKey
  end.

(** Every route registered with [router.get]. *)
Inductive ReadRoute :=
| Cached (r : CachedRead)
| UsersSearch.

Definition read_handler (r : ReadRoute) : Env -> Request -> M Response :=
  match r with
  | Cached c => cached_handler c
  | UsersSearch => Users.get_search
  end.

(** The steps all cached reads take on a hit. *)
Definition hit_branch (e : Env) (text : string) : M Response :=
  counter_inc ["get"; "hit"];; v ← parse e text; res_json v.

(** The steps of [Users.get_all] on a miss. *)
Definition users_miss_branch (e : Env) (req : Request) : M Response :=
  counter_inc ["get"; "miss"];;
  users ← db_call (Users.find_query req) (db_find e (Users.find_query req));
  users ← Users.count_recent_logins e users 1;
  redis_setex e 1 (Users.cacheKey req) 60 (JSON_stringify e (JArr users));;
  dbQueryDuration_observe ["find"; "users"]
    (seconds (clock e (S (length users))) (clock e 0));;
  res_json (JArr users).

(** The documents of the users list once each has its [recentLogins]. *)
Fixpoint with_recent_logins (counts : list Z) (users : list jsval) : list jsval :=
  match users, counts with
  | user :: users', c :: counts' =>
      set_prop "recentLogins" (JNum c) user :: with_recent_logins counts' users'
  | _, _ => []
  end.

(** The database answers [counts] to the count queries of the users list,
    the first of which is dated by the i-th clock reading. *)
Fixpoint counts_answered (e : Env) (i : nat) (users : list jsval) (counts : list Z)
  : Prop :=
  match users, counts with
  | [], [] => True
  | _ :: users', c :: counts' =>
      db_count e (UserCountRecentLogins (clock e i - 86400000)) = Reply c
      /\ counts_answered e (S i) users' counts'
  | _, _ => False
  end.

(** A computation that completes (with a value or an exception) and leaves
    the cache counters alone. *)
Definition tame {A} (m : M A) : Prop :=
  forall w, (m w).1 <> Pending /\ cacheHitRate (m w).2 = cacheHitRate w.



(** ** Sample inputs *)

(** An environment in which the clock advances by 100 ms per reading, the
    Redis server runs its n-th command at second n, every service answers,
    the database is empty; JSON texts are those of the empty array. *)
Definition sample_env : Env :=
  mkEnv (fun i => 100 * Z.of_nat i) (fun n => 1000 * Z.of_nat n) (fun _ => None)
    (fun _ => Reply []) (fun _ => Reply 0) (fun _ => Reply JNull)
    (fun _ => Reply tt) (fun _ fields => fields) (fun _ _ doc => doc)
    (fun _ => "[]") (fun _ => Reply (JArr [])) (fun _ => None)
    (fun _ _ => Reply "$2b$12$hash").

Definition empty_world : World :=
  mkWorld ∅ [] ∅ ∅ ∅ ∅ 0 [] 0 [] [] 0.

Definition sample_request : Request := mkRequest ∅ "42" (JObj []).

(** A product, and an environment whose database holds just it: a
    search with no category filter finds it, any filtered search finds
    nothing.  JSON texts are those of the two possible lists. *)
Definition lamp : jsval :=
  JObj [("name", JStr "lamp"); ("price", JNum 20); ("category", JStr "home")].

Definition catalog_env : Env :=
  mkEnv (clock sample_env) (redis_time sample_env) (fun _ => None)
    (fun q => match q with
              | ProductFind None _ _ _ => Reply [lamp]
              | _ => Reply []
              end)
    (db_count sample_env) (db_one sample_env) (db_save sample_env)
    (new_document sample_env) (document_assign sample_env)
    (fun v => match v with JArr [] => "[]" | _ => "[lamp]" end)
    (fun text => if String.eqb text "[]" then Reply (JArr []) else Reply (JArr [lamp]))
    (RegExp_error sample_env) (bcrypt_hash sample_env).

(** A string without colon. *)
Fixpoint no_colon (s : string) : bool :=
  match s with
  | EmptyString => true
  | String c s' => negb (Ascii.eqb c ":") && no_colon s'
  end.

(** ** More of [src/app.js] *)

(** [retryStrategy: (times) => Math.min(times * 50, 2000)], the delay in
    milliseconds before the Redis client reconnects for the [times]-th
    time. *)
Definition retryStrategy (times : Z) : Z := Z.min (times * 50) 2000.

(** A finished request, as the metrics middleware sees it: the clock on
    arrival and on finish, the method, the route and the status code. *)
Record Finished := mkFinished {
  arrival : Z;
  completion : Z;
  f_method : string;
  f_route : string;
  f_status : Z
}.

Definition finish_labels (ev : Finished) : list string :=
  [f_method ev; f_route ev; pretty (f_status ev)].

(** The [finish] callbacks of a sequence of requests, in order. *)
Definition finish_all (events : list Finished) (w : World) : World :=
  foldl (fun w ev =>
           (on_finish (arrival ev) (completion ev) (f_method ev) (f_route ev)
              (f_status ev) w).2)
    w events.

(** The number of samples a histogram holds for a label tuple. *)
Definition sample_count (labels : list string) (m : gmap (list string) HistValue)
  : nat :=
  match m !! labels with
  | Some h => h_count h
  | None => O
  end.

(** ** The routes

    All the routes of the three routers but order creation, whose handler
    takes the document constructor as well (see [Call] below). *)

Inductive Route :=
| GetUsers | PostUsers | SearchUsers
| GetProducts | PostProducts | GetProduct
| GetOrders | GetOrder | PutOrderStatus.

Definition serve (r : Route) (fuel : nat) (e : Env) (req : Request) : M Response :=
  match r with
  | GetUsers => Users.get_all e req
  | PostUsers => Users.post fuel e req
  | SearchUsers => Users.get_search e req
  | GetProducts => Products.get_all e req
  | PostProducts => Products.post e req
  | GetProduct => Products.get_by_id e req
  | GetOrders => Orders.get_all e req
  | GetOrder => Orders.get_by_id e req
  | PutOrderStatus => Orders.put_status e req
  end.

(** The label tuples under which the handlers observe
    [db_query_duration_seconds]: the nine of the routes above and the one of
    order creation. *)
Definition db_labels : list (list string) :=
  [["find"; "users"]; ["insert"; "users"]; ["search"; "users"];
   ["find"; "products"]; ["insert"; "products"]; ["findById"; "products"];
   ["find"; "orders"]; ["insert"; "orders"]; ["findById"; "orders"];
   ["update"; "orders"]].

(** What holds of the process state between requests: the cache counter has
    no label tuple but hit and miss, the query histogram none but the ones
    above, each with a well-formed value, and the leak gauge shows the size
    of the leaked array. *)
Definition sound (w : World) : Prop :=
  (forall labels, is_Some (cacheHitRate w !! labels) ->
     labels = ["get"; "hit"] \/ labels = ["get"; "miss"])
  /\ (forall labels h, dbQueryDuration w !! labels = Some h ->
        In labels db_labels /\ well_formed dbQueryDuration_buckets h)
  /\ memoryLeakGauge w = Z.of_nat (length (leakyArray w)) * 1000 * 100.

(** [w'] has everything [w] has accumulated, and possibly more. *)
Definition grown (w w' : World) : Prop :=
  (forall labels,
     (counter_value labels (cacheHitRate w)
      <= counter_value labels (cacheHitRate w'))%nat)
  /\ (forall labels,
        (sample_count labels (dbQueryDuration w)
         <= sample_count labels (dbQueryDuration w'))%nat)
  /\ (exists more, leakyArray w' = leakyArray w ++ more)
  /\ (connections w <= connections w')%nat
  /\ (exists more, db_log w' = more ++ db_log w).

(** A computation whose every run relates the worlds before and after by
    [R], gives a value satisfying [Q] when it gives one, and is cut off only
    if [P]. *)
Definition within {A} (R : World -> World -> Prop) (P : Prop) (Q : A -> Prop)
    (m : M A) : Prop :=
  forall w,
    R w (m w).2
    /\ match (m w).1 with
       | Ok a => Q a
       | Throw _ => True
       | Pending => P
       end.

(** The same for a computation that lets no exception escape. *)
Definition answers {A} (R : World -> World -> Prop) (P : Prop) (Q : A -> Prop)
    (m : M A) : Prop :=
  forall w,
    R w (m w).2
    /\ match (m w).1 with
       | Ok a => Q a
       | Throw _ => False
       | Pending => P
       end.

(** The count queries of the users list for [n] documents, the first dated
    by the i-th clock reading. *)
Definition count_queries (e : Env) (i n : nat) : list DbQuery :=
  map (fun j => UserCountRecentLogins (clock e j - 86400000)) (seq i n).

(** The user lookups of the orders list. *)
Definition user_queries (orders : list jsval) : list DbQuery :=
  map (fun order => UserFindById (get_prop "userId" order) "username email") orders.

(** The database's answers to these lookups. *)
Fixpoint users_answered (e : Env) (orders : list jsval) (users : list jsval) : Prop :=
  match orders, users with
  | [], [] => True
  | order :: orders', user :: users' =>
      db_one e (UserFindById (get_prop "userId" order) "username email") = Reply user
      /\ users_answered e orders' users'
  | _, _ => False
  end.

(** The orders of the list once each has its [userDetails]. *)
Fixpoint with_user_details (users : list jsval) (orders : list jsval) : list jsval :=
  match orders, users with
  | order :: orders', user :: users' =>
      set_prop "userDetails" user order :: with_user_details users' orders'
  | _, _ => []
  end.

(** The status codes with which each route answers. *)
Definition statuses (r : Route) : list Z :=
  match r with
  | GetUsers | SearchUsers | GetProducts | GetOrders => [200; 500]
  | PostUsers | PostProducts => [201; 500]
  | GetProduct | GetOrder | PutOrderStatus => [200; 404; 500]
  end.

(** A request to one of the routes above, or one that creates an order. *)
Inductive Call :=
| ToRoute (r : Route) (fuel : nat) (e : Env) (req : Request)
| CreateOrder (fuel : nat) (e : Env)
    (new_Order : jsval -> jsval -> Orders.jsnumber -> jsval -> jsval)
    (req : Request).

Definition handle (c : Call) : M Response :=
  match c with
  | ToRoute r fuel e req => serve r fuel e req
  | CreateOrder fuel e new_Order req => Orders.post fuel e new_Order req
  end.

(** A sequence of calls, handled one after the other. *)
Definition handle_all (calls : list Call) (w : World) : World :=
  foldl (fun w c => (handle c w).2) w calls.

(** The paging of a users list lies in the range where JavaScript's numbers
    are exact integers: the page, the limit and the number of documents
    skipped are below 2^53 in absolute value. *)
Definition safe_paging (req : Request) : Prop :=
  Z.abs (Users.page req) < 2 ^ 53
  /\ Z.abs (Users.limit req) < 2 ^ 53
  /\ Z.abs ((Users.page req - 1) * Users.limit req) < 2 ^ 53.

(** An environment like [sample_env] in which the Redis server is lost
    after it has run [n] commands of the request. *)
Definition store_lost_after (n : nat) (msg : string) : Env :=
  mkEnv (clock sample_env) (redis_time sample_env)
    (fun i => if (i <? n)%nat then None else Some msg)
    (db_find sample_env) (db_count sample_env) (db_one sample_env)
    (db_save sample_env) (new_document sample_env)
    (document_assign sample_env) (JSON_stringify sample_env)
    (JSON_parse sample_env) (RegExp_error sample_env)
    (bcrypt_hash sample_env).

(** An environment like [sample_env] whose database fails every [find]. *)
Definition database_lost (msg : string) : Env :=
  mkEnv (clock sample_env) (redis_time sample_env) (redis_fault sample_env)
    (fun _ => Failure msg) (db_count sample_env) (db_one sample_env)
    (db_save sample_env) (new_document sample_env)
    (document_assign sample_env) (JSON_stringify sample_env)
    (JSON_parse sample_env) (RegExp_error sample_env)
    (bcrypt_hash sample_env).

(** An environment like [sample_env] whose database answers every [find]
    with [found], every count with 2 and every lookup of one document with
    [one], and whose JSON texts are all [text], read back as [parsed]. *)
Definition env_with (found : list jsval) (one : jsval) (text : string)
    (parsed : jsval) : Env :=
  mkEnv (clock sample_env) (redis_time sample_env) (fun _ => None)
    (fun _ => Reply found) (fun _ => Reply 2) (fun _ => Reply one)
    (fun _ => Reply tt) (fun _ fields => fields) (fun _ _ doc => doc)
    (fun _ => text) (fun _ => Reply parsed) (fun _ => None)
    (fun _ _ => Reply "$2b$12$hash").

(** An order and its buyer. *)
Definition parcel : jsval :=
  JObj [("orderId", JStr "o-7"); ("userId", JStr "u-1"); ("status", JStr "pending")].

Definition buyer : jsval := JObj [("username", JStr "ann"); ("email", JStr "ann@example.com")].

(** The product lookups of an order's items. *)
Definition product_queries (items : list jsval) : list DbQuery :=
  map (fun item => ProductFindByItem (get_prop "productId" item)) items.

(** The database's answers to these lookups, for items that are neither
    undefined nor null. *)
Fixpoint products_answered (e : Env) (items products : list jsval) : Prop :=
  match items, products with
  | [], [] => True
  | item :: items', product :: products' =>
      item <> JUndefined /\ item <> JNull
      /\ db_one e (ProductFindByItem (get_prop "productId" item)) = Reply product
      /\ products_answered e items' products'
  | _, _ => False
  end.

(** The items once each product found has given its price. *)
Fixpoint with_prices (products items : list jsval) : list jsval :=
  match items, products with
  | item :: items', product :: products' =>
      (if truthy product then set_prop "price" (get_prop "price" product) item
       else item)
      :: with_prices products' items'
  | _, _ => []
  end.

(** The total, from [total] on, over the products found. *)
Fixpoint total_from (total : Orders.jsnumber) (products items : list jsval)
  : Orders.jsnumber :=
  match items, products with
  | item :: items', product :: products' =>
      total_from
        (if truthy product
         then Orders.PlusTimes total (get_prop "price" product)
                (get_prop "quantity" item)
         else total)
        products' items'
  | _, _ => total
  end.

(** A sample [new Order(fields)]: the document with the fields that are
    values; the total, kept as the sum was written, is none. *)
Definition plain_order (userId items : jsval) (totalAmount : Orders.jsnumber)
    (shippingAddress : jsval) : jsval :=
  JObj [("userId", userId); ("items", items); ("shippingAddress", shippingAddress)].

(** * Properties *)

(** ** The monad *)

Lemma bind_ok {A B} (m : M A) (f : A -> M B) w a w' :
  m w = (Ok a, w') -> (m ≫= f) w = f a w'.
Proof. intros H. unfold mbind, M_bind. now rewrite H. Qed.

Lemma bind_throw {A B} (m : M A) (f : A -> M B) w msg w' :
  m w = (Throw msg, w') -> (m ≫= f) w = (Throw msg, w').
Proof. intros H. unfold mbind, M_bind. now rewrite H. Qed.

Lemma try_catch_ok {A} (m : M A) h w a w' :
  m w = (Ok a, w') -> try_catch m h w = (Ok a, w').
Proof. intros H. unfold try_catch. now rewrite H. Qed.

Lemma try_catch_throw {A} (m : M A) h w msg w' :
  m w = (Throw msg, w') -> try_catch m h w = h msg w'.
Proof. intros H. unfold try_catch. now rewrite H. Qed.

Lemma redis_get_up e n key w :
  redis_fault e n = None ->
  redis_get e n key w = (Ok (Redis.get (redis_time e n) key (redis w)), w).
Proof. intros H. unfold redis_get, redis_read. now rewrite H. Qed.

Lemma redis_get_down e n key w msg :
  redis_fault e n = Some msg -> redis_get e n key w = (Throw msg, w).
Proof. intros H. unfold redis_get, redis_read. now rewrite H. Qed.

Lemma truthy_str_Some text : text <> "" -> truthy_str (Some text) = true.
Proof.
  intros H. simpl. destruct (String.eqb_spec text ""); [contradiction | reflexivity].
Qed.

Lemma cached_handler_hit r e req w text :
  redis_fault e 0 = None ->
  Redis.get (redis_time e 0) (cached_key r req) (redis w) = Some text ->
  text <> "" ->
  cached_handler r e req w = try_catch (hit_branch e text) internal_error w.
Proof.
  intros Hup Hget Hne.
  destruct r; simpl; unfold Users.get_all, Products.get_all, Products.get_by_id,
    Orders.get_all, Orders.get_by_id, try_catch;
  (erewrite bind_ok by (apply redis_get_up; exact Hup));
  simpl in Hget; rewrite Hget, (truthy_str_Some _ Hne); reflexivity.
Qed.

Lemma hit_branch_run e text w :
  try_catch (hit_branch e text) internal_error w =
  (Ok match JSON_parse e text with
      | Reply v => mkResponse 200 v
      | Failure msg => mkResponse 500 (JObj [("error", JStr msg)])
      end,
   with_cacheHitRate (Metrics.inc ["get"; "hit"]) w).
Proof.
  unfold try_catch, hit_branch, parse, counter_inc, modify, mbind, M_bind. simpl.
  destruct (JSON_parse e text); reflexivity.
Qed.

(** ** Cache hits *)

(** C10. On a cache hit, a cached read handler changes nothing but the hit
    counter of [cache_operations_total]: the final world is the initial one
    with that counter incremented, so no database operation is issued, no
    [db_query_duration] sample is recorded and the cache is as it was. *)
Theorem cache_hit_only_counts_the_hit (r : CachedRead) e req w text :
  redis_fault e 0 = None ->
  Redis.get (redis_time e 0) (cached_key r req) (redis w) = Some text ->
  text <> "" ->
  let w' := (cached_handler r e req w).2 in
  w' = with_cacheHitRate (Metrics.inc ["get"; "hit"]) w
  /\ counter_value ["get"; "hit"] (cacheHitRate w')
     = S (counter_value ["get"; "hit"] (cacheHitRate w))
  /\ db_log w' = db_log w
  /\ dbQueryDuration w' = dbQueryDuration w
  /\ redis w' = redis w.
Proof.
  intros Hup Hget Hne. cbv zeta.
  rewrite (cached_handler_hit r e req w text Hup Hget Hne), hit_branch_run.
  cbn [snd]. repeat split.
  unfold counter_value, Metrics.inc; cbn. now rewrite lookup_insert_eq.
Qed.

Lemma cache_hit_only_counts_the_hit_witness :
  let w := with_redis (Redis.setex 0 "orders:all:all:1:10" 120 "[]") empty_world in
  let w' := (Orders.get_all sample_env sample_request w).2 in
  w' = with_cacheHitRate (Metrics.inc ["get"; "hit"]) w
  /\ counter_value ["get"; "hit"] (cacheHitRate w') = 1%nat
  /\ db_log w' = [] /\ dbQueryDuration w' = ∅ /\ redis w' = redis w.
Proof.
  intros w.
  apply (cache_hit_only_counts_the_hit OrdersAll sample_env sample_request w "[]").
  - reflexivity.
  - vm_compute. reflexivity.
  - discriminate.
Defined.

(** ** A failed lookup *)

(** When the Redis server cannot be reached for the lookup, a cached read
    handler answers with status 500 and the store's error message, and the
    world is as it was: no miss is counted and nothing is computed. *)
Lemma lookup_failure_is_reported (r : CachedRead) e req w msg :
  redis_fault e 0 = Some msg ->
  cached_handler r e req w
    = (Ok (mkResponse 500 (JObj [("error", JStr msg)])), w).
Proof.
  intros Hdown.
  destruct r; simpl; unfold Users.get_all, Products.get_all, Products.get_by_id,
    Orders.get_all, Orders.get_by_id;
  (erewrite try_catch_throw
     by (eapply bind_throw; apply redis_get_down; exact Hdown));
  reflexivity.
Qed.

(** ** Reads and the cache *)

(** C5, as the code has it. Each of the five cached read routes (the lists
    of users, products and orders, a product and an order by id) consults
    the cache before computing: when its key holds an unexpired JSON text,
    the handler answers with the value of that text, counts a hit and issues
    no database operation. *)
Theorem cached_reads_answer_from_cache (r : CachedRead) e req w text v :
  redis_fault e 0 = None ->
  Redis.get (redis_time e 0) (cached_key r req) (redis w) = Some text ->
  text <> "" ->
  JSON_parse e text = Reply v ->
  cached_handler r e req w
    = (Ok (mkResponse 200 v), with_cacheHitRate (Metrics.inc ["get"; "hit"]) w)
  /\ db_log (cached_handler r e req w).2 = db_log w.
Proof.
  intros Hup Hget Hne Hparse.
  rewrite (cached_handler_hit r e req w text Hup Hget Hne), hit_branch_run, Hparse.
  split; reflexivity.
Qed.

Lemma cached_reads_answer_from_cache_witness :
  let w := with_redis (Redis.setex 0 "product:42" 600 "[]") empty_world in
  Products.get_by_id sample_env sample_request w
    = (Ok (mkResponse 200 (JArr [])),
       with_cacheHitRate (Metrics.inc ["get"; "hit"]) w)
  /\ db_log (Products.get_by_id sample_env sample_request w).2 = [].
Proof.
  intros w.
  apply (cached_reads_answer_from_cache ProductById sample_env sample_request w
           "[]" (JArr [])).
  - reflexivity.
  - vm_compute. reflexivity.
  - discriminate.
  - reflexivity.
Defined.

(** C5, as stated, fails on the search route: two identical searches in a
    row both go to the database; the first stores nothing and the second
    counts no hit. *)
Lemma search_is_never_answered_from_cache :
  let req := mkRequest {["q" := "john"]} "" JUndefined in
  let w1 := (read_handler UsersSearch sample_env req empty_world).2 in
  let w2 := (read_handler UsersSearch sample_env req w1).2 in
  redis w1 = ∅
  /\ db_log w2 = [UserSearch (Some "john"); UserSearch (Some "john")]
  /\ counter_value ["get"; "hit"] (cacheHitRate w2) = O.
Proof. vm_compute. auto. Qed.

(** The search route never reads or writes the cache, whatever it holds. *)
Lemma search_leaves_the_cache_alone e req w :
  redis (Users.get_search e req w).2 = redis w
  /\ cacheHitRate (Users.get_search e req w).2 = cacheHitRate w
  /\ (RegExp_error e (query req !! "q") = None ->
      db_log (Users.get_search e req w).2
        = UserSearch (query req !! "q") :: db_log w).
Proof.
  unfold Users.get_search, try_catch, db_call, dbQueryDuration_observe, modify,
    of_reply, throw, internal_error, res_status_json, res_json, mbind, M_bind, mret, M_ret.
  destruct (RegExp_error e (query req !! "q")); cbn;
    [ repeat split; intros; discriminate |].
  destruct (db_find e (UserSearch (query req !! "q"))); cbn; auto.
Qed.

(** ** Misses, and the time to live *)

Lemma tame_ret {A} (a : A) : tame (mret a).
Proof. intros w. split; [discriminate | reflexivity]. Qed.



Lemma tame_try_catch {A} (m : M A) h :
  tame m -> (forall msg, tame (h msg)) -> tame (try_catch m h).
Proof.
  intros Hm Hh w. unfold try_catch.
  destruct (Hm w) as [Hp Hc]. destruct (m w) as [[a | msg |] w'] eqn:E; simpl in *.
  - split; [discriminate | exact Hc].
  - destruct (Hh msg w') as [Hp' Hc']. split; [exact Hp' | congruence].
  - contradiction.
Qed.






Lemma tame_internal_error msg : tame (internal_error msg).
Proof. apply tame_ret. Qed.


Lemma users_get_all_miss e req w :
  redis_fault e 0 = None ->
  truthy_str (Redis.get (redis_time e 0) (Users.cacheKey req) (redis w)) = false ->
  Users.get_all e req w = try_catch (users_miss_branch e req) internal_error w.
Proof.
  intros Hup Hget. unfold Users.get_all, try_catch.
  erewrite bind_ok by (apply redis_get_up; exact Hup).
  rewrite Hget. reflexivity.
Qed.


Lemma count_recent_logins_answered e users : forall counts i w,
  counts_answered e i users counts ->
  exists w',
    Users.count_recent_logins e users i w = (Ok (with_recent_logins counts users), w')
    /\ redis w' = redis w /\ cacheHitRate w' = cacheHitRate w.
Proof.
  induction users as [| user rest IH]; intros [| c counts] i w H; simpl in H;
    try contradiction.
  - exists w. auto.
  - destruct H as [Hc Hrest].
    destruct (IH counts (S i)
                (with_db_log (cons (UserCountRecentLogins (clock e i - 86400000))) w)
                Hrest) as (w' & Hrun & Hr & Hh).
    exists w'. split; [| auto].
    simpl. unfold db_call at 1. rewrite Hc.
    unfold mbind, M_bind, modify, of_reply, mret, M_ret in *. cbn.
    rewrite Hrun. reflexivity.
Qed.

Lemma length_with_recent_logins e users : forall counts i,
  counts_answered e i users counts ->
  length (with_recent_logins counts users) = length users.
Proof.
  induction users as [| user rest IH]; intros [| c counts] i H; simpl in *;
    try contradiction; [reflexivity |].
  destruct H as [_ H]. now rewrite (IH _ _ H).
Qed.

Lemma get_live now key s text expiry :
  s !! key = Some (text, expiry) -> now < expiry -> Redis.get now key s = Some text.
Proof.
  intros H Hlt. unfold Redis.get, Redis.live. rewrite H. simpl.
  destruct (Z.ltb_spec now expiry); [reflexivity | lia].
Qed.


Lemma counter_value_inc labels m :
  counter_value labels (Metrics.inc labels m) = S (counter_value labels m).
Proof. unfold counter_value, Metrics.inc. now rewrite lookup_insert_eq. Qed.

Lemma counter_value_inc_other labels labels' m :
  labels <> labels' ->
  counter_value labels' (Metrics.inc labels m) = counter_value labels' m.
Proof. intros H. unfold counter_value, Metrics.inc. now rewrite lookup_insert_ne. Qed.




(** The same holds when the server is lost between the lookup and the
    store: the list was computed and a miss was counted, yet the handler
    answers with the store's error and not with the list. *)
Lemma store_lost_before_setex e req w users counts msg :
  redis_fault e 0 = None ->
  truthy_str (Redis.get (redis_time e 0) (Users.cacheKey req) (redis w)) = false ->
  db_find e (Users.find_query req) = Reply users ->
  counts_answered e 1 users counts ->
  redis_fault e 1 = Some msg ->
  (Users.get_all e req w).1 = Ok (mkResponse 500 (JObj [("error", JStr msg)])).
Proof.
  intros Hup Hmiss Hfind Hcounts Hdown.
  rewrite users_get_all_miss by assumption.
  set (wa := with_db_log (cons (Users.find_query req))
               (with_cacheHitRate (Metrics.inc ["get"; "miss"]) w)).
  destruct (count_recent_logins_answered e users counts 1 wa Hcounts)
    as (wb & Hrun & _).
  unfold try_catch, users_miss_branch, counter_inc, db_call. rewrite Hfind.
  unfold mbind, M_bind, modify, of_reply, mret, M_ret. cbn.
  fold wa. rewrite Hrun.
  unfold redis_setex, redis_write. rewrite Hdown. reflexivity.
Qed.

(** ** Invalidation by prefix *)

Lemma star_matches_all fuel k :
  (fix star (s : string) : bool :=
     Redis.glob_match (S fuel) "" s
     || match s with
        | EmptyString => false
        | String _ s' => star s'
        end) k = true.
Proof. induction k as [| c k IH]; simpl; [reflexivity | exact IH]. Qed.

Lemma glob_match_plain fuel c p k :
  Redis.plain c = true ->
  Redis.glob_match (S fuel) (String c p) k
  = match k with
    | EmptyString => false
    | String c' k' => Ascii.eqb c c' && Redis.glob_match fuel p k'
    end.
Proof.
  intros Hc.
  destruct c as [[] [] [] [] [] [] [] []]; try discriminate Hc;
    destruct p; reflexivity.
Qed.

(** A literal prefix followed by a star matches the keys that start with
    the prefix. *)
Lemma glob_literal_star p : forall k,
  Redis.literal p = true ->
  Redis.glob (p +:+ "*") k = String.prefix p k.
Proof.
  unfold Redis.glob.
  induction p as [| c p IH]; intros k Hlit.
  - destruct k as [| a k]; [reflexivity |].
    exact (star_matches_all 0 (String a k)).
  - simpl in Hlit. apply andb_prop in Hlit as [Hc Hp].
    change (String c p +:+ "*") with (String c (p +:+ "*")).
    simpl String.length. rewrite glob_match_plain by exact Hc.
    destruct k as [| c' k]; [reflexivity |].
    rewrite IH by exact Hp. simpl.
    destruct (Ascii.eqb_spec c c') as [-> | Hne].
    + destruct (ascii_dec c' c'); [reflexivity | contradiction].
    + destruct (ascii_dec c c'); [contradiction | reflexivity].
Qed.

Lemma elem_of_keys now pattern (s : gmap string (string * Z)) k :
  k ∈ Redis.keys now pattern s
  <-> exists entry, s !! k = Some entry
                    /\ Redis.live now entry = true
                    /\ Redis.glob pattern k = true.
Proof.
  unfold Redis.keys. rewrite list_elem_of_fmap. split.
  - intros ([k' entry] & -> & Hin). apply list_elem_of_filter in Hin as [Hp Hin].
    apply elem_of_map_to_list in Hin. simpl in *.
    apply andb_prop in Hp as [Hl Hg]. eauto.
  - intros (entry & Hs & Hl & Hg). exists (k, entry). split; [reflexivity |].
    apply list_elem_of_filter. split.
    + simpl. now rewrite Hl, Hg.
    + now apply elem_of_map_to_list.
Qed.

(** What [invalidate] leaves in the store when the server answers. *)
Lemma invalidate_run e n pattern w :
  redis_fault e n = None ->
  redis_fault e (S n) = None ->
  exists w',
    invalidate e n pattern w = (Ok tt, w')
    /\ redis w' = Redis.del (Redis.keys (redis_time e n) pattern (redis w)) (redis w)
    /\ cacheHitRate w' = cacheHitRate w /\ db_log w' = db_log w.
Proof.
  intros Hn HSn. unfold invalidate, redis_keys, redis_read, mbind, M_bind.
  rewrite Hn.
  destruct (Redis.keys (redis_time e n) pattern (redis w)) as [| k ks] eqn:E.
  - exists w. simpl. auto.
  - simpl. unfold redis_write. rewrite HSn. eexists. split; [reflexivity |].
    simpl. auto.
Qed.

Lemma invalidate_prefix_store e n p w w' :
  Redis.literal p = true ->
  redis w' = Redis.del (Redis.keys (redis_time e n) (p +:+ "*") (redis w)) (redis w) ->
  (forall k entry,
      redis w !! k = Some entry -> Redis.live (redis_time e n) entry = true ->
      String.prefix p k = true -> redis w' !! k = None)
  /\ (forall k now,
        String.prefix p k = true -> redis_time e n <= now ->
        Redis.get now k (redis w') = None)
  /\ (forall k, String.prefix p k = false -> redis w' !! k = redis w !! k).
Proof.
  intros Hlit Hw'. rewrite Hw'. unfold Redis.del.
  assert (Hdeleted : forall k entry,
             redis w !! k = Some entry -> Redis.live (redis_time e n) entry = true ->
             String.prefix p k = true ->
             foldr delete (redis w)
               (Redis.keys (redis_time e n) (p +:+ "*") (redis w)) !! k = None).
  { intros k entry Hk Hlive Hpre. apply lookup_foldr_delete.
    apply elem_of_keys. exists entry. rewrite glob_literal_star by exact Hlit. auto. }
  split; [exact Hdeleted |]. split.
  - intros k now Hpre Hnow. unfold Redis.get.
    destruct (foldr delete (redis w) _ !! k) as [entry |] eqn:E; [| reflexivity].
    apply lookup_foldr_delete_Some in E as [Hnotin Hk].
    destruct (Redis.live (redis_time e n) entry) eqn:Hlive.
    + exfalso. apply Hnotin. apply elem_of_keys. exists entry.
      rewrite glob_literal_star by exact Hlit. auto.
    + unfold Redis.live in *.
      destruct (Z.ltb_spec now (snd entry)); [| reflexivity].
      destruct (Z.ltb_spec (redis_time e n) (snd entry)); [discriminate | lia].
  - intros k Hpre. apply lookup_foldr_delete_not_elem_of.
    intros Hin. apply elem_of_keys in Hin as (entry & _ & _ & Hg).
    rewrite glob_literal_star in Hg by exact Hlit. congruence.
Qed.

(** C2. Invalidation by a prefix [p] (the pattern is [p] followed by a
    star, [p] having no pattern character of its own, as in the three
    patterns of the handlers) succeeds and deletes exactly the entries whose
    key starts with [p]: each such entry that was visible is removed, no key
    starting with [p] is visible afterwards, and the entry (value and
    expiry) of any key that does not start with [p] is as before. *)
Theorem invalidate_prefix_exact e n p w :
  Redis.literal p = true ->
  redis_fault e n = None ->
  redis_fault e (S n) = None ->
  let w' := (invalidate e n (p +:+ "*") w).2 in
  (invalidate e n (p +:+ "*") w).1 = Ok tt
  /\ (forall k entry,
        redis w !! k = Some entry -> Redis.live (redis_time e n) entry = true ->
        String.prefix p k = true -> redis w' !! k = None)
  /\ (forall k now,
        String.prefix p k = true -> redis_time e n <= now ->
        Redis.get now k (redis w') = None)
  /\ (forall k, String.prefix p k = false -> redis w' !! k = redis w !! k).
Proof.
  intros Hlit Hn HSn.
  destruct (invalidate_run e n (p +:+ "*") w Hn HSn) as (w' & Hrun & Hredis & _).
  rewrite Hrun. cbn [fst snd]. split; [reflexivity |].
  now apply invalidate_prefix_store.
Qed.

Lemma invalidate_prefix_exact_witness :
  let w := with_redis (fun _ => {[ "users:1:10" := ("[]", 61000);
                                  "users:2:10" := ("[]", 500);
                                  "products:all:0:max:1:20" := ("[]", 300000) ]})
             empty_world in
  let w' := (invalidate sample_env 1 "users:*" w).2 in
  (invalidate sample_env 1 "users:*" w).1 = Ok tt
  /\ redis w' !! "users:1:10" = None
  /\ Redis.get 1000 "users:2:10" (redis w') = None
  /\ redis w' !! "products:all:0:max:1:20" = Some ("[]", 300000).
Proof.
  intros w w'.
  destruct (invalidate_prefix_exact sample_env 1 "users:" w)
    as (Hok & Hgone & Hhidden & Hkept); [reflexivity | reflexivity | reflexivity |].
  split; [exact Hok |]. split; [| split].
  - apply (Hgone "users:1:10" ("[]", 61000)); reflexivity.
  - apply Hhidden; [reflexivity | reflexivity].
  - transitivity (redis w !! "products:all:0:max:1:20");
      [apply (Hkept "products:all:0:max:1:20") |]; reflexivity.
Defined.

(** The write handlers invalidate with patterns of that form. *)
Lemma products_post_invalidates e req w :
  db_save e (ProductSave (new_document e "Product" (body req))) = Reply tt ->
  redis_fault e 0 = None ->
  redis_fault e 1 = None ->
  exists w',
    Products.post e req w
      = (Ok (mkResponse 201 (new_document e "Product" (body req))), w')
    /\ redis w'
       = Redis.del (Redis.keys (redis_time e 0) ("products:" +:+ "*") (redis w))
           (redis w).
Proof.
  intros Hsave H0 H1.
  set (wa := with_db_log (cons (ProductSave (new_document e "Product" (body req)))) w).
  destruct (invalidate_run e 0 "products:*" wa H0 H1) as (wb & Hrun & Hredis & _).
  eexists. split.
  - unfold Products.post. apply try_catch_ok.
    unfold db_call. rewrite Hsave.
    unfold mbind, M_bind, modify, of_reply, mret, M_ret. cbn. fold wa.
    rewrite Hrun. reflexivity.
  - cbn. exact Hredis.
Qed.

(** ** Bottleneck scenarios *)

(** The scenario name of the spec's example is a no-op. *)
Lemma createBottleneck_nonexistent fuel e n w :
  createBottleneck fuel e [JStr "nonexistent"] n w = (Ok n, w).
Proof. reflexivity. Qed.

(** So is every name that is neither a scenario nor a property of
    [Object.prototype]. *)
Lemma createBottleneck_unknown fuel e key rest n w :
  own_property key = None ->
  inherited_property key = PUndefined ->
  createBottleneck fuel e (JStr key :: rest) n w = (Ok n, w).
Proof.
  intros Hown Hinh. unfold createBottleneck, scenarios. simpl.
  now rewrite Hown, Hinh.
Qed.

(** C3 fails on the code. The name [__proto__] is not a scenario, yet
    [scenarios["__proto__"]] is the truthy, non-callable [Object.prototype]:
    [createBottleneck] throws a TypeError, and the user-creation handler that
    was given this scenario name answers 500 before it hashes or saves
    anything. *)
Theorem createBottleneck_proto_throws fuel e n w user :
  own_property "__proto__" = None
  /\ createBottleneck fuel e [JStr "__proto__"] n w
     = (Throw "scenarios[scenario] is not a function", w)
  /\ Users.post fuel e
       (mkRequest ∅ "" (JObj (("scenario", JStr "__proto__") :: user))) w
     = (Ok (mkResponse 500
              (JObj [("error", JStr "scenarios[scenario] is not a function")])),
        w).
Proof. repeat split. Qed.

(** The two definers of [Object.prototype] throw as well. *)
Lemma createBottleneck_definers_throw fuel e n w :
  (createBottleneck fuel e [JStr "__defineGetter__"] n w).1
    = Throw "Object.prototype.__defineGetter__: Expecting function"
  /\ (createBottleneck fuel e [JStr "__defineSetter__"] n w).1
     = Throw "Object.prototype.__defineSetter__: Expecting function".
Proof. split; reflexivity. Qed.

(** A busy loop whose body only updates the world: if the clock first
    shows [duration] elapsed at reading [n + k], the loop runs its body [k]
    times and stops after that reading. *)
Lemma busy_loop_runs e start duration f : forall k fuel n w,
  (forall i, (n <= i < n + k)%nat -> clock e i - start < duration) ->
  duration <= clock e (n + k) - start ->
  (k < fuel)%nat ->
  busy_loop fuel e start duration (modify f) n w = (Ok (S (n + k)), Nat.iter k f w).
Proof.
  induction k as [| k IH]; intros fuel n w Hbefore Hat Hfuel;
    (destruct fuel as [| fuel]; [lia |]); simpl.
  - rewrite Nat.add_0_r in *.
    destruct (Z.ltb_spec (clock e n - start) duration); [lia | reflexivity].
  - destruct (Z.ltb_spec (clock e n - start) duration) as [_ | Hge].
    2: { specialize (Hbefore n ltac:(lia)). lia. }
    unfold mbind, M_bind, modify at 1. cbn.
    rewrite (IH fuel (S n) (f w)).
    + replace (S n + k)%nat with (n + S k)%nat by lia.
      now rewrite <- Nat.iter_succ_r.
    + intros i Hi. apply Hbefore. lia.
    + replace (S n + k)%nat with (n + S k)%nat by lia. exact Hat.
    + lia.
Qed.




(** ** Cache keys *)

(** C6 fails on the code. A products request without category and one with
    the category [all] get the same key although their queries differ: after
    the first, the second is answered from the first's cache entry (the lamp)
    although the database has no product of category [all].  The orders key
    collides in the same way on [status]. *)
Theorem products_cacheKey_collision :
  let unfiltered := mkRequest ∅ "" JUndefined in
  let filtered := mkRequest {["category" := "all"]} "" JUndefined in
  Products.cacheKey unfiltered = "products:all:0:max:1:20"
  /\ Products.cacheKey filtered = "products:all:0:max:1:20"
  /\ Products.find_query unfiltered = ProductFind None None (Some 0) (Some 20)
  /\ Products.find_query filtered = ProductFind (Some "all") None (Some 0) (Some 20)
  /\ db_find catalog_env (Products.find_query filtered) = Reply []
  /\ (let w1 := (Products.get_all catalog_env unfiltered empty_world).2 in
      (Products.get_all catalog_env filtered w1).1
      = Ok (mkResponse 200 (JArr [lamp])))
  /\ Orders.cacheKey (mkRequest ∅ "" JUndefined)
     = Orders.cacheKey (mkRequest {["status" := "all"]} "" JUndefined)
  /\ Orders.find_query (mkRequest ∅ "" JUndefined)
     <> Orders.find_query (mkRequest {["status" := "all"]} "" JUndefined).
Proof. vm_compute. repeat split; discriminate. Qed.

(** The other half of C6 fails too: the products and orders keys are built
    from the raw [page] and [limit] texts, the queries from their [parseInt],
    so requests with the same query can get different keys. *)
Lemma products_cacheKey_splits_one_query :
  let plain := mkRequest {["page" := "1"]} "" JUndefined in
  let padded := mkRequest {["page" := "01"]} "" JUndefined in
  Products.find_query plain = Products.find_query padded
  /\ Products.cacheKey plain = "products:all:0:max:1:20"
  /\ Products.cacheKey padded = "products:all:0:max:01:20".
Proof. vm_compute. repeat split. Qed.

(** The users key, built from the parsed page and limit, has neither
    defect. *)
Lemma pretty_N_go_no_colon x : forall s,
  no_colon s = true -> no_colon (pretty_N_go x s) = true.
Proof.
  induction (N.lt_wf_0 x) as [x _ IH]; intros s Hs.
  assert (x = 0 \/ 0 < x)%N as [-> | Hpos] by lia.
  - now rewrite pretty_N_go_0.
  - rewrite pretty_N_go_step by exact Hpos. apply IH.
    + now apply N.div_lt.
    + simpl. rewrite Hs, andb_true_r.
      unfold pretty_N_char. repeat case_match; reflexivity.
Qed.

Lemma pretty_Z_no_colon (z : Z) : no_colon (pretty z) = true.
Proof.
  assert (HN : forall n : N, no_colon (pretty n) = true).
  { intros n. unfold pretty, pretty_N. case_decide; [reflexivity |].
    now apply pretty_N_go_no_colon. }
  destruct z as [| p | p]; [reflexivity | apply (HN (N.pos p)) |].
  change (pretty (Z.neg p)) with (String "-" (pretty (N.pos p))).
  simpl. apply (HN (N.pos p)).
Qed.

Lemma colon_separated a : forall a' b b',
  no_colon a = true -> no_colon a' = true ->
  a +:+ ":" +:+ b = a' +:+ ":" +:+ b' -> a = a' /\ b = b'.
Proof.
  induction a as [| c a IH]; intros [| c' a'] b b' Ha Ha' H; simpl in *.
  - now inversion H.
  - inversion H; subst. now rewrite Ascii.eqb_refl in Ha'.
  - inversion H; subst. now rewrite Ascii.eqb_refl in Ha.
  - inversion H; subst.
    apply andb_prop in Ha as [_ Ha]. apply andb_prop in Ha' as [_ Ha'].
    destruct (IH a' b b' Ha Ha' H2) as [-> ->]. auto.
Qed.

Lemma or_num_nonzero n d : d <> 0 -> or_num n d <> 0.
Proof.
  intros Hd. unfold or_num. destruct n as [v |]; [| exact Hd].
  destruct (Z.eqb_spec v 0); [exact Hd | assumption].
Qed.

Lemma users_cacheKey_faithful r1 r2 :
  safe_paging r1 -> safe_paging r2 ->
  Users.cacheKey r1 = Users.cacheKey r2 <-> Users.find_query r1 = Users.find_query r2.
Proof.
  intros _ _. unfold Users.cacheKey, Users.find_query. split.
  - intros H. injection H as H.
    apply colon_separated in H as [Hp Hl]; try apply pretty_Z_no_colon.
    apply (inj pretty) in Hp. apply (inj pretty) in Hl. now rewrite Hp, Hl.
  - intros H. injection H as Hs Hl. rewrite Hl in *.
    assert (Hnz : Users.limit r2 <> 0) by (apply or_num_nonzero; lia).
    assert (Hp : Users.page r1 = Users.page r2) by nia.
    now rewrite Hp.
Qed.

(** ** Histograms *)

Lemma bump_fst v bc : (bump v bc).1 = bc.1.
Proof. unfold bump. now destruct (Qle_bool v bc.1). Qed.

Lemma bump_snd v bc :
  (bump v bc).2 = if Qle_bool v bc.1 then S bc.2 else bc.2.
Proof. unfold bump. now destruct (Qle_bool v bc.1). Qed.

Lemma well_formed_base ub : well_formed ub (createBaseValues ub).
Proof.
  unfold well_formed, ordered_counts, createBaseValues. simpl.
  split; [| split].
  - rewrite map_map. simpl. apply map_id.
  - intros b c b' c' _ H' _. apply in_map_iff in H' as (x & [= _ <-] & _). lia.
  - intros b c H. apply in_map_iff in H as (x & [= _ <-] & _). lia.
Qed.

Lemma well_formed_observe ub v h :
  well_formed ub h -> well_formed ub (observe_value v h).
Proof.
  intros (Hb & Ho & Hc). unfold well_formed, ordered_counts, observe_value. simpl.
  split; [| split].
  - rewrite map_map, <- Hb. apply map_ext. intros bc. apply bump_fst.
  - intros b c b' c' H H' Hle.
    apply in_map_iff in H as ([b0 c0] & Hbump & Hin).
    apply in_map_iff in H' as ([b0' c0'] & Hbump' & Hin').
    unfold bump in *. simpl in *.
    destruct (Qle_bool v b0) eqn:E; destruct (Qle_bool v b0') eqn:E';
      inversion Hbump; inversion Hbump'; subst;
      pose proof (Ho _ _ _ _ Hin Hin' Hle) as Hcc; try lia.
    apply Qle_bool_iff in E'.
    assert (Hvb : Qle_bool v b = true) by (apply Qle_bool_iff; now apply Qle_trans with b').
    congruence.
  - intros b c H. apply in_map_iff in H as ([b0 c0] & Hbump & Hin).
    specialize (Hc _ _ Hin). unfold bump in Hbump. simpl in *.
    destruct (Qle_bool v b0); inversion Hbump; subst; lia.
Qed.

Lemma recorded_well_formed ub samples : forall m,
  (forall labels h, m !! labels = Some h -> well_formed ub h) ->
  forall labels h,
    foldl (fun m sample => Metrics.observe ub sample.1 sample.2 m) m samples
      !! labels = Some h ->
    well_formed ub h.
Proof.
  induction samples as [| [ls v] samples IH]; intros m Hm labels h; simpl.
  - apply Hm.
  - apply IH. clear labels h. intros labels h. unfold Metrics.observe.
    destruct (decide (ls = labels)) as [-> | Hne].
    + rewrite lookup_insert_eq. intros [= <-]. apply well_formed_observe.
      destruct (m !! labels) as [h0 |] eqn:E; simpl;
        [exact (Hm labels h0 E) | apply well_formed_base].
    + rewrite lookup_insert_ne by exact Hne. apply Hm.
Qed.

(** C7. The boundaries declared for the two histograms are strictly
    increasing.  An observation of [v] under a label tuple adds one to the
    counter of every boundary [b] with [v <= b] and to no other, adds [v] to
    the sum and one to the count, and leaves other label tuples alone; so no
    counter ever decreases.  In every histogram value recorded since
    registration the boundaries are the declared ones, a boundary at least as
    large as another has a counter at least as large, and no counter exceeds
    the count. *)
Theorem histogram_counts_are_cumulative :
  strictly_increasing httpDuration_buckets = true
  /\ strictly_increasing dbQueryDuration_buckets = true
  /\ (forall ub labels v m,
        let h := default (createBaseValues ub) (m !! labels) in
        Metrics.observe ub labels v m !! labels
          = Some (mkHist
                    (map (fun bc => (bc.1, if Qle_bool v bc.1 then S bc.2 else bc.2))
                       (bucketValues h))
                    (h_sum h + v)%Q (S (h_count h)))
        /\ forall labels', labels' <> labels ->
             Metrics.observe ub labels v m !! labels' = m !! labels')
  /\ (forall v h i b c,
        bucketValues h !! i = Some (b, c) ->
        exists c', bucketValues (observe_value v h) !! i = Some (b, c')
                   /\ (c <= c')%nat
                   /\ ((v <= b)%Q -> c' = S c)
                   /\ (~ (v <= b)%Q -> c' = c))
  /\ (forall ub samples labels h,
        recorded ub samples !! labels = Some h ->
        map fst (bucketValues h) = ub
        /\ (forall b c b' c',
              In (b, c) (bucketValues h) -> In (b', c') (bucketValues h) ->
              (b' <= b)%Q -> (c' <= c)%nat)
        /\ (forall b c, In (b, c) (bucketValues h) -> (c <= h_count h)%nat)).
Proof.
  split; [reflexivity |]. split; [reflexivity |]. split; [| split].
  - intros ub labels v m h. split.
    + unfold Metrics.observe. rewrite lookup_insert_eq. fold h.
      unfold observe_value. do 2 f_equal. apply map_ext.
      intros [b c]. unfold bump. simpl. now destruct (Qle_bool v b).
    + intros labels' Hne. unfold Metrics.observe. now rewrite lookup_insert_ne.
  - intros v h i b c Hi.
    exists (if Qle_bool v b then S c else c). split; [| split; [| split]].
    + unfold observe_value. simpl.
      change (map (bump v) (bucketValues h)) with (bump v <$> bucketValues h).
      rewrite list_lookup_fmap, Hi. simpl. unfold bump. simpl.
      now destruct (Qle_bool v b).
    + destruct (Qle_bool v b); lia.
    + intros Hle. apply Qle_bool_iff in Hle. now rewrite Hle.
    + intros Hnle. destruct (Qle_bool v b) eqn:E; [| reflexivity].
      apply Qle_bool_iff in E. contradiction.
  - intros ub samples labels h Hrec.
    refine (recorded_well_formed ub samples ∅ _ labels h Hrec).
    intros ls h0 Hls. now rewrite lookup_empty in Hls.
Qed.

Lemma histogram_counts_are_cumulative_witness :
  let m := recorded dbQueryDuration_buckets
             [(["find"; "users"], 3 # 1000); (["find"; "users"], 40 # 1000);
              (["insert"; "users"], 7 # 10); (["find"; "users"], 6 # 1)]%Q in
  exists h,
    m !! ["find"; "users"] = Some h
    /\ map fst (bucketValues h) = dbQueryDuration_buckets
    /\ map snd (bucketValues h) = [0; 1; 1; 2; 2; 2; 2; 2; 2]%nat
    /\ h_count h = 3%nat
    /\ (forall b c b' c',
          In (b, c) (bucketValues h) -> In (b', c') (bucketValues h) ->
          (b' <= b)%Q -> (c' <= c)%nat).
Proof.
  intros m.
  destruct (m !! ["find"; "users"]) as [h |] eqn:E; [| vm_compute in E; discriminate].
  exists h. split; [reflexivity |].
  destruct histogram_counts_are_cumulative as (_ & _ & _ & _ & Hrec).
  destruct (Hrec dbQueryDuration_buckets _ _ h E) as (Hb & Ho & _).
  split; [exact Hb |]. split; [| split; [| exact Ho]].
  - vm_compute in E. injection E as <-. reflexivity.
  - vm_compute in E. injection E as <-. reflexivity.
Defined.

(** * Further properties *)

(** ** A logic for handlers

    [within R P Q m] is proved along the structure of [m], for any relation
    [R] on worlds that is reflexive, transitive and respected by the
    elementary steps. *)

Section Logic.

Variable R : World -> World -> Prop.
Hypothesis R_refl : forall w, R w w.
Hypothesis R_trans : forall w1 w2 w3, R w1 w2 -> R w2 w3 -> R w1 w3.

Lemma within_ret {A} P (Q : A -> Prop) a : Q a -> within R P Q (mret a).
Proof. intros H w. split; [apply R_refl | exact H]. Qed.

Lemma within_throw {A} P (Q : A -> Prop) msg : within R P Q (throw msg).
Proof. intros w. split; [apply R_refl | exact I]. Qed.

Lemma within_pending {A} (P : Prop) (Q : A -> Prop) : P -> within R P Q pending.
Proof. intros H w. split; [apply R_refl | exact H]. Qed.

Lemma within_bind {A B} P (Q1 : A -> Prop) (Q2 : B -> Prop) (m : M A) (f : A -> M B) :
  within R P Q1 m -> (forall a, Q1 a -> within R P Q2 (f a)) ->
  within R P Q2 (m ≫= f).
Proof.
  intros Hm Hf w. unfold mbind, M_bind.
  destruct (Hm w) as [HR HQ]. destruct (m w) as [[a | msg |] w1]; simpl in *.
  - destruct (Hf a HQ w1) as [HR' HQ']. split; [| exact HQ'].
    now apply R_trans with w1.
  - split; [exact HR | exact I].
  - split; [exact HR | exact HQ].
Qed.

Lemma within_seq {A B} P (Q : B -> Prop) (m : M A) (f : A -> M B) :
  within R P (fun _ => True) m -> (forall a, within R P Q (f a)) ->
  within R P Q (m ≫= f).
Proof. intros Hm Hf. apply within_bind with (fun _ => True); auto. Qed.

Lemma within_modify P f : (forall w, R w (f w)) -> within R P (fun _ => True) (modify f).
Proof. intros H w. split; [apply H | exact I]. Qed.

Lemma within_of_reply {A} P (r : reply A) : within R P (fun _ => True) (of_reply r).
Proof. destruct r; [now apply within_ret | apply within_throw]. Qed.

Lemma answers_try_catch {A} P (Q : A -> Prop) (m : M A) h :
  within R P Q m -> (forall msg, answers R P Q (h msg)) ->
  answers R P Q (try_catch m h).
Proof.
  intros Hm Hh w. unfold try_catch.
  destruct (Hm w) as [HR HQ]. destruct (m w) as [[a | msg |] w1]; simpl in *.
  - auto.
  - destruct (Hh msg w1) as [HR' HQ']. split; [| exact HQ'].
    now apply R_trans with w1.
  - auto.
Qed.

Lemma answers_internal_error P (Q : Response -> Prop) msg :
  (forall v, Q (mkResponse 500 v)) -> answers R P Q (internal_error msg).
Proof. intros H w. split; [apply R_refl | apply H]. Qed.

Lemma within_redis_read {A} P e n (run : Z -> gmap string (string * Z) -> A) :
  within R P (fun _ => True) (redis_read e n run).
Proof.
  intros w. unfold redis_read. destruct (redis_fault e n); simpl; auto.
Qed.

(** *** The elementary steps *)

(** The keys under which [R] allows a value to be stored. *)
Variable allowed : string -> Prop.

Hypothesis R_setex : forall now key ttl value w,
  allowed key -> R w (with_redis (Redis.setex now key ttl value) w).
Hypothesis R_del : forall ks w, R w (with_redis (Redis.del ks) w).
Hypothesis R_db_log : forall q w, R w (with_db_log (cons q) w).
Hypothesis R_hit : forall w, R w (with_cacheHitRate (Metrics.inc ["get"; "hit"]) w).
Hypothesis R_miss : forall w, R w (with_cacheHitRate (Metrics.inc ["get"; "miss"]) w).
Hypothesis R_observe : forall labels v w,
  In labels db_labels ->
  R w (with_dbQueryDuration (Metrics.observe dbQueryDuration_buckets labels v) w).
Hypothesis R_leak : forall doc w, R w (with_leak doc w).
Hypothesis R_pbkdf2 : forall w, R w (with_pbkdf2 w).
Hypothesis R_allocation : forall len w, R w (with_allocation len w).
Hypothesis R_timer : forall delay w, R w (with_timer delay w).
Hypothesis R_connection : forall w, R w (with_connection w).

Lemma within_redis_setex P e n key ttl value :
  allowed key -> within R P (fun _ => True) (redis_setex e n key ttl value).
Proof.
  intros Hkey w. unfold redis_setex, redis_write.
  destruct (redis_fault e n); simpl; auto.
Qed.

Lemma within_redis_del P e n ks : within R P (fun _ => True) (redis_del e n ks).
Proof.
  destruct ks as [| k ks]; [apply within_throw |].
  intros w. unfold redis_del, redis_write.
  destruct (redis_fault e n); simpl; [auto |].
  split; [exact (R_del (k :: ks) w) | exact I].
Qed.

Lemma within_invalidate P e n pattern :
  within R P (fun _ => True) (invalidate e n pattern).
Proof.
  apply within_seq; [apply within_redis_read |]. intros ks.
  destruct (negb _); [apply within_redis_del | now apply within_ret].
Qed.

Lemma within_db_call {A} P q (r : reply A) : within R P (fun _ => True) (db_call q r).
Proof.
  apply within_seq; [now apply within_modify | intros; apply within_of_reply].
Qed.

Lemma within_count_recent_logins P e users : forall i,
  within R P (fun _ => True) (Users.count_recent_logins e users i).
Proof.
  induction users as [| user rest IH]; intros i; simpl.
  - now apply within_ret.
  - apply within_seq; [apply within_db_call |]. intros c.
    apply within_seq; [apply IH |]. intros rest'. now apply within_ret.
Qed.

Lemma within_fetch_user_details P e orders :
  within R P (fun _ => True) (Orders.fetch_user_details e orders).
Proof.
  induction orders as [| order rest IH]; simpl.
  - now apply within_ret.
  - apply within_seq; [apply within_db_call |]. intros user.
    apply within_seq; [apply IH |]. intros rest'. now apply within_ret.
Qed.

Lemma within_busy_loop (P : Prop) e start duration body :
  P -> within R P (fun _ => True) body ->
  forall fuel n, within R P (fun _ => True) (busy_loop fuel e start duration body n).
Proof.
  intros HP Hbody. induction fuel as [| fuel IH]; intros n; simpl.
  - now apply within_pending.
  - destruct (clock e n - start <? duration); [| now apply within_ret].
    apply within_seq; [exact Hbody | intros _; apply IH].
Qed.

Lemma within_createBottleneck (P : Prop) fuel e args n :
  P -> within R P (fun _ => True) (createBottleneck fuel e args n).
Proof.
  intros HP. unfold createBottleneck.
  destruct (convertible _); [| apply within_throw].
  destruct (scenarios (nth 0 args JUndefined)) as [| s | m |].
  - now apply within_ret.
  - destruct s; simpl.
    + apply within_busy_loop; [exact HP | now apply within_modify].
    + unfold memoryIntensive, new_Array, sleep.
      apply within_seq.
      * destruct (_ && _); [| apply within_throw].
        apply within_seq; [now apply within_modify | intros; now apply within_ret].
      * intros _. apply within_seq; [now apply within_modify |].
        intros; now apply within_ret.
    + apply within_busy_loop; [exact HP | now apply within_ret].
    + unfold slowIO, sleep.
      apply within_seq; [now apply within_modify | intros; now apply within_ret].
    + unfold dbConnectionLeak.
      apply within_seq; [now apply within_modify | intros; now apply within_ret].
  - destruct m; simpl; try (now apply within_ret); apply within_throw.
  - apply within_throw.
Qed.

Ltac elementary :=
  first
    [ apply within_redis_read | apply within_redis_del
    | apply within_redis_setex; first [assumption | auto]
    | apply within_invalidate | apply within_db_call
    | apply within_count_recent_logins | apply within_fetch_user_details
    | apply within_of_reply
    | apply within_createBottleneck; reflexivity
    | apply within_modify; intros;
      first [apply R_hit | apply R_miss | apply R_leak
            | apply R_observe; simpl; tauto]
    | apply within_throw
    | apply within_ret; simpl; tauto ].

Ltac split_case :=
  match goal with
  | |- within _ _ _ (if ?b then _ else _) => destruct b
  | |- within _ _ _ (match ?x with _ => _ end) => destruct x
  end.

Ltac solve_small := first [elementary | split_case; solve_small].

Ltac walk :=
  repeat
    (cbv zeta;
     first [elementary | split_case | apply within_seq; [solve_small | intros]]).

Ltac open_handlers :=
  unfold Users.get_all, Users.post, Users.get_search, Products.get_all,
    Products.post, Products.get_by_id, Orders.get_all, Orders.get_by_id,
    Orders.put_status, res_json, res_status_json, parse, destructure.

(** The routes that store nothing in the cache: the three writes and the
    search. *)
Lemma uncached_route_answers r fuel e req :
  r = PostUsers \/ r = PostProducts \/ r = PutOrderStatus \/ r = SearchUsers ->
  answers R (r = PostUsers) (fun resp => In (status resp) (statuses r))
    (serve r fuel e req).
Proof.
  intros [-> | [-> | [-> | ->]]]; simpl serve; open_handlers;
    (apply answers_try_catch;
     [| intros; apply answers_internal_error; intros; simpl; tauto]);
    walk.
Qed.

(** The cached reads. *)
Lemma cached_route_answers (c : CachedRead) e req :
  allowed (cached_key c req) ->
  answers R False
    (fun resp => status resp = 200 \/ status resp = 404 \/ status resp = 500)
    (cached_handler c e req).
Proof.
  intros Hkey. destruct c; simpl in *; open_handlers;
    (apply answers_try_catch;
     [| intros; apply answers_internal_error; intros; simpl; tauto]);
    walk.
Qed.

(** A cached read whose lookup the server answers: the world at the end is
    related to the one in which just the hit or the miss has been counted. *)
Lemma cached_route_counts (c : CachedRead) e req w :
  allowed (cached_key c req) ->
  redis_fault e 0 = None ->
  let reply := Redis.get (redis_time e 0) (cached_key c req) (redis w) in
  exists resp w',
    cached_handler c e req w = (Ok resp, w')
    /\ R (with_cacheHitRate
            (Metrics.inc ["get"; if truthy_str reply then "hit" else "miss"]) w) w'.
Proof.
  intros Hkey Hup reply.
  assert (Hafter : forall rest : M Response,
             within R False (fun _ => True) rest ->
             exists resp w',
               try_catch (counter_inc ["get"; "miss"];; rest) internal_error w
                 = (Ok resp, w')
               /\ R (with_cacheHitRate (Metrics.inc ["get"; "miss"]) w) w').
  { intros rest Hrest.
    destruct (Hrest (with_cacheHitRate (Metrics.inc ["get"; "miss"]) w)) as [HR HQ].
    unfold try_catch, counter_inc, mbind, M_bind, modify. cbn.
    destruct (rest _) as [[resp | msg |] w1]; simpl in *;
      [eauto | eauto | contradiction]. }
  destruct (truthy_str reply) eqn:Htruthy.
  - destruct reply as [text |] eqn:Hreply; [| discriminate].
    assert (Hne : text <> "") by (intros ->; discriminate).
    rewrite (cached_handler_hit c e req w text Hup Hreply Hne), hit_branch_run.
    eauto.
  - destruct c; simpl in *; open_handlers; unfold try_catch;
      (erewrite bind_ok by (apply redis_get_up; exact Hup));
      fold reply; rewrite Htruthy;
      match goal with
      | |- context [counter_inc ["get"; "miss"] ≫= ?k] =>
          apply (Hafter (k tt))
      end;
      walk.
Qed.

(** Every route. *)
Lemma serve_answers r fuel e req :
  (forall key, allowed key) ->
  answers R (r = PostUsers) (fun resp => In (status resp) (statuses r))
    (serve r fuel e req).
Proof.
  intros Hall.
  destruct r; simpl serve; open_handlers;
    (apply answers_try_catch;
     [| intros; apply answers_internal_error; intros; simpl; tauto]);
    walk.
Qed.

(** Order creation. *)
Lemma within_price_items P e items : forall total,
  within R P (fun _ => True) (Orders.price_items e items total).
Proof.
  induction items as [| item rest IH]; intros total; simpl.
  - now apply within_ret.
  - apply within_seq.
    + unfold Orders.productId.
      destruct item; first [apply within_throw | now apply within_ret].
    + intros id. apply within_seq; [apply within_db_call |]. intros product.
      apply within_seq; [apply IH |]. intros priced. now apply within_ret.
Qed.

Lemma order_creation_answers fuel e new_Order req :
  answers R True (fun resp => status resp = 201 \/ status resp = 500)
    (Orders.post fuel e new_Order req).
Proof.
  unfold Orders.post, Orders.iterate, res_status_json, destructure.
  apply answers_try_catch;
    [| intros; apply answers_internal_error; intros; simpl; tauto].
  apply within_seq; [solve_small |]. intros _. cbv zeta.
  apply within_seq.
  { destruct (truthy _); [now apply within_createBottleneck | now apply within_ret]. }
  intros n.
  apply within_seq; [solve_small |]. intros elements.
  apply within_seq; [apply within_price_items |]. intros priced.
  walk.
Qed.

(** A cached read that finds nothing under its key while the server can no
    longer be reached for the SETEX: the miss is counted, and the answer is
    a 404 or a 500, never the value computed. *)
Lemma within_redis_setex_down P e n key ttl value msg :
  redis_fault e n = Some msg ->
  within R P (fun _ => False) (redis_setex e n key ttl value).
Proof.
  intros Hdown w. unfold redis_setex, redis_write. rewrite Hdown. simpl.
  split; [apply R_refl | exact I].
Qed.

Lemma cached_route_without_store (c : CachedRead) e req w msg :
  redis_fault e 0 = None ->
  truthy_str (Redis.get (redis_time e 0) (cached_key c req) (redis w)) = false ->
  redis_fault e 1 = Some msg ->
  exists resp w',
    cached_handler c e req w = (Ok resp, w')
    /\ R (with_cacheHitRate (Metrics.inc ["get"; "miss"]) w) w'
    /\ (status resp = 404 \/ status resp = 500).
Proof.
  intros Hup Hmiss Hdown.
  assert (Hafter : forall rest : M Response,
             within R False (fun resp => status resp = 404 \/ status resp = 500) rest ->
             exists resp w',
               try_catch (counter_inc ["get"; "miss"];; rest) internal_error w
                 = (Ok resp, w')
               /\ R (with_cacheHitRate (Metrics.inc ["get"; "miss"]) w) w'
               /\ (status resp = 404 \/ status resp = 500)).
  { intros rest Hrest.
    destruct (Hrest (with_cacheHitRate (Metrics.inc ["get"; "miss"]) w)) as [HR HQ].
    unfold try_catch, counter_inc, mbind, M_bind, modify. cbn.
    destruct (rest _) as [[resp | msg' |] w1]; simpl in *;
      [eauto | | contradiction].
    eexists _, _. split; [reflexivity |]. split; [exact HR | now right]. }
  destruct c; simpl in *; open_handlers; unfold try_catch;
    (erewrite bind_ok by (apply redis_get_up; exact Hup));
    rewrite Hmiss;
    match goal with
    | |- context [counter_inc ["get"; "miss"] ≫= ?k] =>
        apply (Hafter (k tt))
    end;
    repeat
      (cbv zeta;
       first
         [ apply within_bind with (Q1 := fun _ => False);
           [eapply within_redis_setex_down; exact Hdown | intros ? []]
         | apply within_ret; simpl; tauto
         | split_case
         | apply within_seq;
           [ first [ apply within_db_call | apply within_count_recent_logins
                   | apply within_fetch_user_details ]
           | intros ] ]).
Qed.

End Logic.

(** ** When the store cannot be reached *)

(** C8, as stated, fails on the users list. With the same error message, a
    lost Redis server and a lost database give the same response, status 500
    and [{error: message}]: the response does not tell the store's failure
    from another. And the handler never computes without caching: when the
    lookup fails it does not reach the database, and when the server is lost
    after the lookup the list it has computed is dropped for a 500. *)
Lemma store_failure_is_not_told_apart :
  let req := sample_request in
  let down := store_lost_after 0 "read ETIMEDOUT" in
  let late := store_lost_after 1 "read ETIMEDOUT" in
  let failure := Ok (mkResponse 500 (JObj [("error", JStr "read ETIMEDOUT")])) in
  (Users.get_all down req empty_world).1 = failure
  /\ (Users.get_all (database_lost "read ETIMEDOUT") req empty_world).1 = failure
  /\ db_log (Users.get_all down req empty_world).2 = []
  /\ (Users.get_all late req empty_world).1 = failure
  /\ db_log (Users.get_all late req empty_world).2 = [UserFind 0 10].
Proof. vm_compute. auto. Qed.

(** C8, as the code has it. A cached read handler does not take a lost
    Redis server for a miss, and it fails closed, in the form of every other
    failure. If the lookup fails, the handler answers 500 with the store's
    message and the world is as it was: no miss counted, nothing computed.
    If the server is lost after a miss, at the SETEX, the miss is counted,
    nothing is stored, and the answer is a 404 or a 500, never a 200 with
    the value computed; for the users list, once the list is computed, it is
    a 500 with the store's message.  A database failure with the same
    message gives the same response. *)
Theorem store_failure_fails_closed e req w msg :
  (forall c : CachedRead,
     redis_fault e 0 = Some msg ->
     cached_handler c e req w
       = (Ok (mkResponse 500 (JObj [("error", JStr msg)])), w))
  /\ (forall c : CachedRead,
        redis_fault e 0 = None ->
        truthy_str (Redis.get (redis_time e 0) (cached_key c req) (redis w)) = false ->
        redis_fault e 1 = Some msg ->
        exists resp w',
          cached_handler c e req w = (Ok resp, w')
          /\ (status resp = 404 \/ status resp = 500)
          /\ redis w' = redis w
          /\ cacheHitRate w' = Metrics.inc ["get"; "miss"] (cacheHitRate w))
  /\ (forall users counts,
        redis_fault e 0 = None ->
        truthy_str (Redis.get (redis_time e 0) (Users.cacheKey req) (redis w)) = false ->
        db_find e (Users.find_query req) = Reply users ->
        counts_answered e 1 users counts ->
        redis_fault e 1 = Some msg ->
        (Users.get_all e req w).1 = Ok (mkResponse 500 (JObj [("error", JStr msg)])))
  /\ (redis_fault e 0 = None ->
      truthy_str (Redis.get (redis_time e 0) (Users.cacheKey req) (redis w)) = false ->
      db_find e (Users.find_query req) = Failure msg ->
      (Users.get_all e req w).1 = Ok (mkResponse 500 (JObj [("error", JStr msg)]))).
Proof.
  split; [| split; [| split]].
  - intros c Hdown. now apply lookup_failure_is_reported.
  - intros c Hup Hmiss Hdown.
    destruct (cached_route_without_store
                (fun a b => redis b = redis a /\ cacheHitRate b = cacheHitRate a))
      with (c := c) (e := e) (req := req) (w := w) (msg := msg)
      as (resp & w' & Hrun & [Hredis Hcount] & Hstatus); auto.
    + intros w1 w2 w3 [H1 H2] [H3 H4]. split; congruence.
    + exists resp, w'. auto.
  - intros users counts Hup Hmiss Hfind Hcounts Hdown.
    now apply store_lost_before_setex with users counts.
  - intros Hup Hmiss Hfind.
    rewrite users_get_all_miss by assumption.
    unfold try_catch, users_miss_branch, counter_inc, db_call. rewrite Hfind.
    reflexivity.
Qed.

Lemma store_failure_fails_closed_witness :
  let msg := "Connection is closed." in
  let failure := mkResponse 500 (JObj [("error", JStr msg)]) in
  Products.get_by_id (store_lost_after 0 msg) sample_request empty_world
    = (Ok failure, empty_world)
  /\ (exists resp w',
        Orders.get_all (store_lost_after 1 msg) sample_request empty_world
          = (Ok resp, w')
        /\ (status resp = 404 \/ status resp = 500)
        /\ redis w' = ∅
        /\ cacheHitRate w' = Metrics.inc ["get"; "miss"] ∅)
  /\ (Users.get_all (store_lost_after 1 msg) sample_request empty_world).1
     = Ok failure
  /\ (Users.get_all (database_lost msg) sample_request empty_world).1 = Ok failure.
Proof.
  intros msg failure.
  destruct (store_failure_fails_closed (store_lost_after 0 msg) sample_request
              empty_world msg) as (Hlookup & _).
  destruct (store_failure_fails_closed (store_lost_after 1 msg) sample_request
              empty_world msg) as (_ & Hlate & Husers & _).
  destruct (store_failure_fails_closed (database_lost msg) sample_request
              empty_world msg) as (_ & _ & _ & Hdatabase).
  split; [apply (Hlookup ProductById); reflexivity |].
  split; [apply (Hlate OrdersAll); reflexivity |].
  split.
  - apply (Husers [] []); reflexivity.
  - apply Hdatabase; reflexivity.
Defined.

(** ** What every route does *)


Lemma sound_empty_world : sound empty_world.
Proof.
  split; [| split]; [| | reflexivity].
  - intros labels [x Hx]. cbn in Hx. now rewrite lookup_empty in Hx.
  - intros labels h Hh. cbn in Hh. now rewrite lookup_empty in Hh.
Qed.

Lemma sound_counted label w :
  label = "hit" \/ label = "miss" ->
  sound w -> sound (with_cacheHitRate (Metrics.inc ["get"; label]) w).
Proof.
  intros Hlabel (Hc & Hh & Hg). split; [| split]; [| exact Hh | exact Hg].
  intros labels. cbn. unfold Metrics.inc.
  destruct (decide (["get"; label] = labels)) as [<- | Hne].
  - intros _. destruct Hlabel as [-> | ->]; auto.
  - rewrite lookup_insert_ne by exact Hne. apply Hc.
Qed.

Lemma sound_observed labels v w :
  In labels db_labels ->
  sound w ->
  sound (with_dbQueryDuration (Metrics.observe dbQueryDuration_buckets labels v) w).
Proof.
  intros Hin (Hc & Hh & Hg). split; [| split]; [exact Hc | | exact Hg].
  intros labels' h. cbn. unfold Metrics.observe.
  destruct (decide (labels = labels')) as [<- | Hne].
  - rewrite lookup_insert_eq. intros [= <-]. split; [exact Hin |].
    apply well_formed_observe.
    destruct (dbQueryDuration w !! labels) as [h0 |] eqn:E; simpl;
      [apply (Hh labels h0 E) | apply well_formed_base].
  - rewrite lookup_insert_ne by exact Hne. apply Hh.
Qed.

Lemma serve_keeps_sound r fuel e req w :
  sound w -> sound (serve r fuel e req w).2.
Proof.
  refine (proj1 (serve_answers (fun w w' => sound w -> sound w') _ _
                   (fun _ => True) _ _ _ _ _ _ _ _ _ _ _ r fuel e req
                   (fun _ => I) w));
    try (intros; assumption); auto.
  - intros w0. apply sound_counted. now left.
  - intros w0. apply sound_counted. now right.
  - intros labels v w0 Hin. now apply sound_observed.
  - intros doc w0 (Hc & Hh & _). split; [| split]; [exact Hc | exact Hh |].
    reflexivity.
Qed.

Lemma order_creation_keeps_sound fuel e new_Order req w :
  sound w -> sound (Orders.post fuel e new_Order req w).2.
Proof.
  refine (proj1 (order_creation_answers (fun w w' => sound w -> sound w')
                   _ _ _ _ _ _ _ _ _ fuel e new_Order req w));
    try (intros; assumption); auto.
  intros labels v w0 Hin. now apply sound_observed.
Qed.

(** X2. The process state stays sound under every handler of the three
    routers, whatever the request and the environment, hence after any
    sequence of calls handled from the start: the cache counter holds no
    label tuple but (get, hit) and (get, miss); the query histogram holds
    only the ten label tuples the handlers use, each with the declared
    boundaries, counters ordered with the boundaries and none above the
    count; the leak gauge is 100000 times the length of the leaked array. *)
Theorem handlers_keep_the_world_sound :
  (forall r fuel e req w, sound w -> sound (serve r fuel e req w).2)
  /\ (forall fuel e new_Order req w,
        sound w -> sound (Orders.post fuel e new_Order req w).2)
  /\ forall calls, sound (handle_all calls empty_world).
Proof.
  split; [exact serve_keeps_sound | split; [exact order_creation_keeps_sound |]].
  intros calls. unfold handle_all.
  generalize sound_empty_world. generalize empty_world.
  induction calls as [| c rest IH]; intros w Hw; simpl.
  - exact Hw.
  - apply IH. destruct c; simpl.
    + now apply serve_keeps_sound.
    + now apply order_creation_keeps_sound.
Qed.

Lemma handlers_keep_the_world_sound_witness :
  let user := mkRequest ∅ "" (JObj [("username", JStr "ann"); ("password", JStr "pw")]) in
  let order := mkRequest ∅ ""
    (JObj [("userId", JStr "u-1");
           ("items", JArr [JObj [("productId", JStr "p-1"); ("quantity", JNum 2)]])]) in
  let w := handle_all [ToRoute PostUsers 0 sample_env user;
                       ToRoute GetUsers 0 sample_env sample_request;
                       CreateOrder 0 sample_env plain_order order;
                       ToRoute GetUsers 0 sample_env sample_request] empty_world in
  sound w
  /\ memoryLeakGauge w = 100000
  /\ counter_value ["get"; "miss"] (cacheHitRate w) = 1%nat
  /\ counter_value ["get"; "hit"] (cacheHitRate w) = 1%nat
  /\ sample_count ["insert"; "orders"] (dbQueryDuration w) = 1%nat.
Proof.
  intros user order w. split.
  - apply (proj2 (proj2 handlers_keep_the_world_sound)).
  - vm_compute. auto.
Defined.

(** *** Accumulation *)

Lemma grown_refl w : grown w w.
Proof.
  repeat split; intros; try lia; [exists [] | exists []];
    [now rewrite app_nil_r | reflexivity].
Qed.

Lemma grown_trans w1 w2 w3 : grown w1 w2 -> grown w2 w3 -> grown w1 w3.
Proof.
  intros (Hc & Hs & [l Hl] & Hn & [d Hd]) (Hc' & Hs' & [l' Hl'] & Hn' & [d' Hd']).
  repeat split.
  - intros labels. specialize (Hc labels). specialize (Hc' labels). lia.
  - intros labels. specialize (Hs labels). specialize (Hs' labels). lia.
  - exists (l ++ l'). now rewrite Hl', Hl, app_assoc.
  - lia.
  - exists (d' ++ d). now rewrite Hd', Hd, app_assoc.
Qed.

Lemma grown_counted labels w :
  grown w (with_cacheHitRate (Metrics.inc labels) w).
Proof.
  destruct (grown_refl w) as (_ & Hs & Hl & Hn & Hd).
  split; [| now repeat split].
  intros labels'. cbn. destruct (decide (labels = labels')) as [<- | Hne].
  - rewrite counter_value_inc. lia.
  - now rewrite counter_value_inc_other.
Qed.

Lemma grown_observed ub labels v w :
  grown w (with_dbQueryDuration (Metrics.observe ub labels v) w).
Proof.
  destruct (grown_refl w) as (Hc & _ & Hl & Hn & Hd).
  split; [exact Hc |]. split; [| now repeat split].
  intros labels'. cbn. unfold sample_count, Metrics.observe.
  destruct (decide (labels = labels')) as [<- | Hne].
  - rewrite lookup_insert_eq. simpl.
    destruct (dbQueryDuration w !! labels); simpl; lia.
  - now rewrite lookup_insert_ne.
Qed.

(** X3. Nothing a route does is ever undone by a route: across any request
    no cache counter and no histogram count decreases, the leaked array keeps
    all its elements, the number of leaked connections does not decrease and
    the database operations already issued stay issued. *)
Theorem routes_only_accumulate r fuel e req w :
  grown w (serve r fuel e req w).2.
Proof.
  refine (proj1 (serve_answers grown grown_refl grown_trans
                   (fun _ => True) _ _ _ _ _ _ _ _ _ _ _ r fuel e req
                   (fun _ => I) w));
    intros;
    try apply grown_counted; try apply grown_observed;
    try (destruct (grown_refl w0) as (Hc & Hs & Hl & Hn & Hd);
         repeat split; cbn; auto;
         first [ now (eexists; reflexivity) | lia
               | now (exists [q]) ]).
Qed.

(** ** What the cached reads do to the cache and its counter *)

(** X4. A cached read whose lookup the server answers responds and counts
    exactly one cache operation: a hit if the lookup gave a non-empty text, a
    miss otherwise (also for an empty text); whatever happens afterwards
    (database failure, 404, store failure) changes the counter no more. *)
Theorem cached_read_counts_one_operation (c : CachedRead) e req w :
  redis_fault e 0 = None ->
  let reply := Redis.get (redis_time e 0) (cached_key c req) (redis w) in
  exists resp w',
    cached_handler c e req w = (Ok resp, w')
    /\ cacheHitRate w'
       = Metrics.inc ["get"; if truthy_str reply then "hit" else "miss"]
           (cacheHitRate w).
Proof.
  intros Hup reply.
  destruct (cached_route_counts (fun w w' => cacheHitRate w' = cacheHitRate w)
              (fun _ => eq_refl) (fun _ _ _ H1 H2 => eq_trans H2 H1)
              (fun _ => True) (fun _ _ _ _ _ _ => eq_refl) (fun _ _ => eq_refl)
              (fun _ _ _ _ => eq_refl) c e req w I Hup)
    as (resp & w' & Hrun & Hc).
  exists resp, w'. split; [exact Hrun | exact Hc].
Qed.

Lemma cached_read_counts_one_operation_witness :
  let w := with_redis (Redis.setex 0 "order:42" 300 "") empty_world in
  exists resp w',
    Orders.get_by_id sample_env sample_request w = (Ok resp, w')
    /\ cacheHitRate w' = Metrics.inc ["get"; "miss"] ∅.
Proof.
  intros w.
  apply (cached_read_counts_one_operation OrderById sample_env sample_request w).
  reflexivity.
Defined.

(** X5. A cached read touches no cache entry but that of its own key, and
    never removes that one: every other key has the entry (value and expiry)
    it had, and if the own key had an entry it still has one. *)
Theorem cached_read_writes_only_its_key (c : CachedRead) e req w k :
  let w' := (cached_handler c e req w).2 in
  (k <> cached_key c req -> redis w' !! k = redis w !! k)
  /\ (is_Some (redis w !! cached_key c req) ->
      is_Some (redis w' !! cached_key c req)).
Proof.
  set (K := cached_key c req).
  set (R := fun w w' : World =>
              (forall k, k <> K -> redis w' !! k = redis w !! k)
              /\ (is_Some (redis w !! K) -> is_Some (redis w' !! K))).
  assert (HR : R w (cached_handler c e req w).2).
  { refine (proj1 (cached_route_answers R _ _ (fun key => key = K) _ _ _ _ _
                     c e req eq_refl w)); unfold R; try (intros; now split).
    - intros w1 w2 w3 [H1 H1'] [H2 H2']. split; [| auto].
      intros k0 Hk. now rewrite H2, H1.
    - intros now key ttl value w0 ->. cbn. unfold Redis.setex. split.
      + intros k0 Hk. now rewrite lookup_insert_ne.
      + intros _. rewrite lookup_insert_eq. eauto. }
  destruct HR as [Hother Hown]. split; [intros Hk; now apply Hother | exact Hown].
Qed.

Lemma cached_read_writes_only_its_key_witness :
  let w := with_redis (Redis.setex 0 "product:7" 600 "[]") empty_world in
  redis (Products.get_all sample_env sample_request w).2 !! "product:7"
  = Some ("[]", 600000).
Proof.
  intros w.
  destruct (cached_read_writes_only_its_key ProductsAll sample_env sample_request
              w "product:7") as [Hother _].
  transitivity (redis w !! "product:7"); [apply Hother; discriminate | reflexivity].
Defined.

Lemma del_subseteq ks (s : gmap string (string * Z)) k entry :
  Redis.del ks s !! k = Some entry -> s !! k = Some entry.
Proof.
  unfold Redis.del. intros H. now apply lookup_foldr_delete_Some in H as [_ H].
Qed.

(** X6. The three writes and the search store nothing in the cache: every
    entry the cache holds after such a request was there before, with the
    same value and expiry. *)
Theorem uncached_routes_store_nothing r fuel e req w k entry :
  r = PostUsers \/ r = PostProducts \/ r = PutOrderStatus \/ r = SearchUsers ->
  redis (serve r fuel e req w).2 !! k = Some entry ->
  redis w !! k = Some entry.
Proof.
  intros Hr.
  set (R := fun w w' : World =>
              forall k entry, redis w' !! k = Some entry -> redis w !! k = Some entry).
  assert (HR : R w (serve r fuel e req w).2).
  { refine (proj1 (uncached_route_answers R _ _ _ _ _ _ _ _ _ _
                     r fuel e req Hr w)); unfold R; try (intros; assumption).
    - intros w1 w2 w3 H1 H2 k0 entry0 H. auto.
    - intros ks w0 k0 entry0. cbn. apply del_subseteq. }
  apply HR.
Qed.

Lemma uncached_routes_store_nothing_witness :
  let e := env_with [] parcel "{}" parcel in
  let req := mkRequest ∅ "7" (JObj [("status", JStr "shipped")]) in
  let w := with_redis (fun _ => {[ "order:9" := ("{}", 5000);
                                  "order:7" := ("{}", 5000);
                                  "orders:all:all:1:10" := ("[]", 120000) ]})
             empty_world in
  redis (Orders.put_status e req w).2 = {[ "order:9" := ("{}", 5000) ]}
  /\ redis w !! "order:9" = Some ("{}", 5000).
Proof.
  intros e req w.
  assert (Hafter : redis (Orders.put_status e req w).2 = {[ "order:9" := ("{}", 5000) ]})
    by (vm_compute; reflexivity).
  split; [exact Hafter |].
  apply (uncached_routes_store_nothing PutOrderStatus 0 e req w); [auto |].
  cbn [serve]. rewrite Hafter. reflexivity.
Defined.

(** ** The Redis client's reconnection delay ([src/app.js]) *)

(** X7. The delay before the [times]-th reconnection (attempts count from
    1) is 50 ms per attempt up to the 40th and 2000 ms from then on: it is at
    least 50 ms, never more than 2000 ms, and never shorter for a later
    attempt. *)
Theorem retryStrategy_backs_off_to_two_seconds times :
  1 <= times ->
  50 <= retryStrategy times <= 2000
  /\ (times <= 40 -> retryStrategy times = times * 50)
  /\ (40 <= times -> retryStrategy times = 2000)
  /\ forall later, times <= later -> retryStrategy times <= retryStrategy later.
Proof. unfold retryStrategy. intros H. repeat split; intros; lia. Qed.

Lemma retryStrategy_backs_off_to_two_seconds_witness :
  retryStrategy 3 = 150 /\ retryStrategy 41 = 2000.
Proof.
  destruct (retryStrategy_backs_off_to_two_seconds 3) as (_ & H3 & _); [lia |].
  destruct (retryStrategy_backs_off_to_two_seconds 41) as (_ & _ & H41 & _); [lia |].
  split; [apply H3 | apply H41]; lia.
Defined.

(** ** The request-metrics middleware ([src/app.js]) *)

Lemma on_finish_counts start now method route code w labels :
  let w' := (on_finish start now method route code w).2 in
  counter_value labels (httpRequestCounter w')
  = (counter_value labels (httpRequestCounter w)
     + if decide ([method; route; pretty code] = labels) then 1 else 0)%nat
  /\ sample_count labels (httpDuration w')
     = (sample_count labels (httpDuration w)
        + if decide ([method; route; pretty code] = labels) then 1 else 0)%nat.
Proof.
  intros w'.
  assert (Hc : httpRequestCounter w'
               = Metrics.inc [method; route; pretty code] (httpRequestCounter w))
    by reflexivity.
  assert (Hs : httpDuration w'
               = Metrics.observe httpDuration_buckets [method; route; pretty code]
                   (Qmake (now - start) 1000) (httpDuration w))
    by reflexivity.
  rewrite Hc, Hs. clear Hc Hs w'.
  destruct (decide ([method; route; pretty code] = labels)) as [<- | Hne].
  - rewrite counter_value_inc. unfold sample_count, Metrics.observe.
    rewrite lookup_insert_eq. simpl.
    destruct (httpDuration w !! _); simpl; lia.
  - rewrite counter_value_inc_other by exact Hne.
    unfold sample_count, Metrics.observe. rewrite lookup_insert_ne by exact Hne. lia.
Qed.

(** X8. After any sequence of finished requests, starting from a state in
    which they agree, the request counter and the count of the duration
    histogram agree for every label tuple (method, route, status): each
    finished request adds one to both under its own tuple and nothing
    elsewhere, so both have grown by the number of requests with that
    tuple. *)
Theorem finished_requests_are_counted_once events : forall w labels,
  counter_value labels (httpRequestCounter w) = sample_count labels (httpDuration w) ->
  let w' := finish_all events w in
  counter_value labels (httpRequestCounter w')
  = (counter_value labels (httpRequestCounter w)
     + length (filter (fun ev => finish_labels ev = labels) events))%nat
  /\ counter_value labels (httpRequestCounter w') = sample_count labels (httpDuration w').
Proof.
  unfold finish_all.
  induction events as [| ev rest IH]; intros w labels Hagree.
  - simpl. split; [lia | exact Hagree].
  - destruct (on_finish_counts (arrival ev) (completion ev) (f_method ev)
                (f_route ev) (f_status ev) w labels) as [Hc Hs].
    cbv zeta in Hc, Hs, IH |- *. cbn [foldl].
    destruct (IH (on_finish (arrival ev) (completion ev) (f_method ev)
                    (f_route ev) (f_status ev) w).2 labels) as [Hc' Hagree'];
      [lia |].
    split; [| exact Hagree'].
    rewrite Hc', Hc, filter_cons.
    change (finish_labels ev) with [f_method ev; f_route ev; pretty (f_status ev)].
    destruct (decide ([f_method ev; f_route ev; pretty (f_status ev)] = labels));
      simpl; lia.
Qed.

Lemma finished_requests_are_counted_once_witness :
  let events := [mkFinished 0 120 "GET" "/" 200; mkFinished 5 800 "POST" "/" 201;
                 mkFinished 9 130 "GET" "/" 200; mkFinished 9 30 "GET" "/" 500] in
  let w' := finish_all events empty_world in
  counter_value ["GET"; "/"; "200"] (httpRequestCounter w') = 2%nat
  /\ sample_count ["GET"; "/"; "200"] (httpDuration w') = 2%nat.
Proof.
  intros events w'.
  destruct (finished_requests_are_counted_once events empty_world ["GET"; "/"; "200"])
    as [Hc Hs]; [reflexivity |].
  fold w' in Hc, Hs. rewrite <- Hs, Hc. split; reflexivity.
Defined.

(** ** The key of the users list *)

(** X9. Two requests for the users list whose page, limit and skip lie in
    the range where JavaScript's numbers are exact integers (below 2^53 in
    absolute value) get the same cache key exactly when they run the same
    database query: the key is built from the parsed page and limit, with
    their defaults applied, as the query is.  Beyond that range the skip is
    rounded, and neighbouring pages can share a query under different keys. *)
Theorem users_key_iff_query r1 r2 :
  safe_paging r1 -> safe_paging r2 ->
  Users.cacheKey r1 = Users.cacheKey r2 <-> Users.find_query r1 = Users.find_query r2.
Proof.
  intros _ _. unfold Users.cacheKey, Users.find_query. split.
  - intros H. injection H as H.
    apply colon_separated in H as [Hp Hl]; try apply pretty_Z_no_colon.
    apply (inj pretty) in Hp. apply (inj pretty) in Hl. now rewrite Hp, Hl.
  - intros H. injection H as Hs Hl. rewrite Hl in *.
    assert (Hnz : Users.limit r2 <> 0) by (apply or_num_nonzero; lia).
    assert (Hp : Users.page r1 = Users.page r2) by nia.
    now rewrite Hp.
Qed.

Lemma users_key_iff_query_witness :
  let r1 := mkRequest {["page" := "2"; "limit" := "5"]} "" JUndefined in
  let r2 := mkRequest {["page" := " 0x2"; "limit" := "5 a page"]} "" JUndefined in
  safe_paging r1 /\ safe_paging r2 /\ Users.cacheKey r1 = Users.cacheKey r2.
Proof.
  intros r1 r2.
  assert (H1 : safe_paging r1) by (vm_compute; auto).
  assert (H2 : safe_paging r2) by (vm_compute; auto).
  split; [exact H1 | split; [exact H2 |]].
  apply (users_key_iff_query r1 r2 H1 H2). reflexivity.
Defined.

(** ** Misses: what is computed, stored and recorded *)

Ltac run_steps :=
  unfold try_catch, db_call, counter_inc, dbQueryDuration_observe, redis_get,
    redis_setex, redis_del, redis_read, redis_write, parse, res_json, res_status_json,
    internal_error, of_reply, throw, modify, mbind, M_bind, mret, M_ret;
  cbn.

Lemma count_recent_logins_run e users : forall counts i w,
  counts_answered e i users counts ->
  Users.count_recent_logins e users i w
  = (Ok (with_recent_logins counts users),
     with_db_log (app (rev (count_queries e i (length users)))) w).
Proof.
  induction users as [| user rest IH]; intros [| c counts] i w H; simpl in H;
    try contradiction.
  - simpl. unfold mret, M_ret. f_equal. now destruct w.
  - destruct H as [Hc Hrest].
    simpl. unfold db_call at 1. rewrite Hc.
    unfold mbind, M_bind, modify, of_reply, mret, M_ret in *. cbn.
    rewrite (IH counts (S i) _ Hrest). f_equal.
    unfold with_db_log. cbn. f_equal.
    unfold count_queries. cbn. now rewrite <- app_assoc.
Qed.

Lemma fetch_user_details_run e orders : forall users w,
  users_answered e orders users ->
  Orders.fetch_user_details e orders w
  = (Ok (with_user_details users orders),
     with_db_log (app (rev (user_queries orders))) w).
Proof.
  induction orders as [| order rest IH]; intros [| user users] w H; simpl in H;
    try contradiction.
  - simpl. unfold mret, M_ret. f_equal. now destruct w.
  - destruct H as [Hu Hrest].
    simpl. unfold db_call at 1. rewrite Hu.
    unfold mbind, M_bind, modify, of_reply, mret, M_ret in *. cbn.
    rewrite (IH users _ Hrest). f_equal.
    unfold with_db_log. cbn. f_equal. now rewrite <- app_assoc.
Qed.

(** An entry that is still alive answers the next read of its key. *)
Lemma stored_entry_hits (c : CachedRead) e req w text value expiry :
  redis w !! cached_key c req = Some (text, expiry) ->
  redis_fault e 0 = None ->
  redis_time e 0 < expiry ->
  text <> "" ->
  JSON_parse e text = Reply value ->
  cached_handler c e req w
  = (Ok (mkResponse 200 value), with_cacheHitRate (Metrics.inc ["get"; "hit"]) w).
Proof.
  intros Hentry Hup Hlive Hne Hparse.
  rewrite (cached_handler_hit c e req w text Hup (get_live _ _ _ _ _ Hentry Hlive) Hne).
  now rewrite hit_branch_run, Hparse.
Qed.

(** X10. On a miss that finds [n] users, the users list issues [n + 1]
    database operations: the [find], then one count per user in order, each
    dated 24 hours before its own clock reading; every user gets its count
    as [recentLogins], and one duration sample is recorded, measured at the
    clock reading after the last count. *)
Theorem users_list_issues_one_query_per_user e req w users counts :
  redis_fault e 0 = None ->
  truthy_str (Redis.get (redis_time e 0) (Users.cacheKey req) (redis w)) = false ->
  redis_fault e 1 = None ->
  db_find e (Users.find_query req) = Reply users ->
  counts_answered e 1 users counts ->
  exists w',
    Users.get_all e req w
      = (Ok (mkResponse 200 (JArr (with_recent_logins counts users))), w')
    /\ db_log w'
       = rev (Users.find_query req :: count_queries e 1 (length users)) ++ db_log w
    /\ length (db_log w') = (length (db_log w) + 1 + length users)%nat
    /\ dbQueryDuration w'
       = Metrics.observe dbQueryDuration_buckets ["find"; "users"]
           (seconds (clock e (S (length users))) (clock e 0)) (dbQueryDuration w).
Proof.
  intros Hup Hmiss Hup1 Hfind Hcounts.
  rewrite users_get_all_miss by assumption.
  eexists. split.
  - unfold users_miss_branch, try_catch, counter_inc, db_call. rewrite Hfind.
    unfold mbind, M_bind, modify, of_reply, mret, M_ret. cbn.
    rewrite (count_recent_logins_run e users counts 1 _ Hcounts).
    unfold redis_setex, redis_write. rewrite Hup1.
    unfold dbQueryDuration_observe, modify, res_json, mret, M_ret. cbn.
    rewrite (length_with_recent_logins e users counts 1 Hcounts).
    reflexivity.
  - cbn. split; [| split; [| reflexivity]].
    + now rewrite <- app_assoc.
    + rewrite length_app, length_rev. unfold count_queries.
      rewrite length_map, length_seq. cbn [length]. lia.
Qed.

Lemma users_list_issues_one_query_per_user_witness :
  let e := env_with [JObj [("username", JStr "ann")]; JObj [("username", JStr "bob")]]
             JNull "[]" (JArr []) in
  exists w',
    Users.get_all e sample_request empty_world
      = (Ok (mkResponse 200
               (JArr [JObj [("username", JStr "ann"); ("recentLogins", JNum 2)];
                      JObj [("username", JStr "bob"); ("recentLogins", JNum 2)]])),
         w')
    /\ db_log w' = [UserCountRecentLogins (200 - 86400000);
                    UserCountRecentLogins (100 - 86400000); UserFind 0 10].
Proof.
  intros e.
  destruct (users_list_issues_one_query_per_user e sample_request empty_world
              [JObj [("username", JStr "ann")]; JObj [("username", JStr "bob")]]
              [2; 2])
    as (w' & Hrun & Hlog & _);
    [reflexivity | reflexivity | reflexivity | reflexivity
    | repeat split |].
  exists w'. split; [exact Hrun | exact Hlog].
Defined.

(** X11. A document that the database does not find is answered with 404
    and is not cached: the product and the order by id count the miss, issue
    their one lookup, and store nothing and record no duration sample, so the
    next request for the same id looks it up again. *)
Theorem missing_document_is_not_cached e req w doc :
  redis_fault e 0 = None ->
  truthy doc = false ->
  (truthy_str (Redis.get (redis_time e 0) (Products.id_cacheKey req) (redis w)) = false ->
   db_one e (ProductFindById (params_id req)) = Reply doc ->
   Products.get_by_id e req w
   = (Ok (mkResponse 404 (JObj [("error", JStr "Product not found")])),
      with_db_log (cons (ProductFindById (params_id req)))
        (with_cacheHitRate (Metrics.inc ["get"; "miss"]) w)))
  /\ (truthy_str (Redis.get (redis_time e 0) (Orders.id_cacheKey req) (redis w)) = false ->
      db_one e (OrderFindById (params_id req)) = Reply doc ->
      Orders.get_by_id e req w
      = (Ok (mkResponse 404 (JObj [("error", JStr "Order not found")])),
         with_db_log (cons (OrderFindById (params_id req)))
           (with_cacheHitRate (Metrics.inc ["get"; "miss"]) w))).
Proof.
  intros Hup Hfalsy. split; intros Hmiss Hone;
    unfold Products.get_by_id, Orders.get_by_id; run_steps;
    rewrite Hup, Hmiss; cbn; rewrite Hone; cbn; rewrite Hfalsy; reflexivity.
Qed.

Lemma missing_document_is_not_cached_witness :
  let r := Products.get_by_id sample_env sample_request empty_world in
  r.1 = Ok (mkResponse 404 (JObj [("error", JStr "Product not found")]))
  /\ redis r.2 = ∅ /\ dbQueryDuration r.2 = ∅
  /\ db_log (Products.get_by_id sample_env sample_request r.2).2
     = [ProductFindById "42"; ProductFindById "42"].
Proof.
  intros r.
  destruct (missing_document_is_not_cached sample_env sample_request empty_world
              JNull) as [Hproduct _]; [reflexivity | reflexivity |].
  unfold r. rewrite Hproduct by reflexivity.
  repeat split.
Defined.

(** X12. On a miss, the products list runs its one query, answers with the
    products found, stores their JSON text under its key for 300 seconds and
    records one duration sample; a later request with the same key, while
    less than 300 seconds of server time have passed since the store, is
    answered from that entry. *)
Theorem products_list_miss_stores_for_300s e req w products :
  redis_fault e 0 = None ->
  truthy_str (Redis.get (redis_time e 0) (Products.cacheKey req) (redis w)) = false ->
  redis_fault e 1 = None ->
  db_find e (Products.find_query req) = Reply products ->
  let text := JSON_stringify e (JArr products) in
  let expiry := redis_time e 1 + 300 * 1000 in
  let w' :=
    with_dbQueryDuration
      (Metrics.observe dbQueryDuration_buckets ["find"; "products"]
         (seconds (clock e 1) (clock e 0)))
      (with_redis (Redis.setex (redis_time e 1) (Products.cacheKey req) 300 text)
         (with_db_log (cons (Products.find_query req))
            (with_cacheHitRate (Metrics.inc ["get"; "miss"]) w))) in
  Products.get_all e req w = (Ok (mkResponse 200 (JArr products)), w')
  /\ forall e2 req2,
       Products.cacheKey req2 = Products.cacheKey req ->
       redis_fault e2 0 = None ->
       redis_time e2 0 < expiry ->
       text <> "" ->
       JSON_parse e2 text = Reply (JArr products) ->
       Products.get_all e2 req2 w'
       = (Ok (mkResponse 200 (JArr products)),
          with_cacheHitRate (Metrics.inc ["get"; "hit"]) w').
Proof.
  intros Hup Hmiss Hup1 Hfind text expiry w'. split.
  - unfold Products.get_all. run_steps.
    rewrite Hup, Hmiss. cbn. rewrite Hfind. cbn. rewrite Hup1. reflexivity.
  - intros e2 req2 Hkey Hup2 Hlive Hne Hparse.
    apply (stored_entry_hits ProductsAll e2 req2 w' text (JArr products) expiry);
      try assumption.
    simpl. rewrite Hkey. unfold w'. cbn. unfold Redis.setex.
    now rewrite lookup_insert_eq.
Qed.

Lemma products_list_miss_stores_for_300s_witness :
  let e := env_with [lamp] JNull "[lamp]" (JArr [lamp]) in
  let r := Products.get_all e sample_request empty_world in
  r.1 = Ok (mkResponse 200 (JArr [lamp]))
  /\ redis r.2 = {[ "products:all:0:max:1:20" := ("[lamp]", 301000) ]}
  /\ (Products.get_all e sample_request r.2).1 = Ok (mkResponse 200 (JArr [lamp]))
  /\ db_log (Products.get_all e sample_request r.2).2
     = [ProductFind None None (Some 0) (Some 20)].
Proof.
  intros e r.
  destruct (products_list_miss_stores_for_300s e sample_request empty_world [lamp])
    as [Hrun Hnext]; [reflexivity | reflexivity | reflexivity | reflexivity |].
  unfold r. rewrite Hrun. cbn [fst snd].
  rewrite (Hnext e sample_request);
    [| reflexivity | reflexivity | reflexivity | discriminate | reflexivity].
  repeat split.
Defined.

(** X13. On a miss, the product by id that the database finds is answered,
    stored under [product:<id>] for 600 seconds and timed once; a later
    request for the same id within that time is answered from the entry. *)
Theorem product_by_id_miss_stores_for_600s e req w product :
  redis_fault e 0 = None ->
  truthy_str (Redis.get (redis_time e 0) (Products.id_cacheKey req) (redis w)) = false ->
  redis_fault e 1 = None ->
  db_one e (ProductFindById (params_id req)) = Reply product ->
  truthy product = true ->
  let text := JSON_stringify e product in
  let expiry := redis_time e 1 + 600 * 1000 in
  let w' :=
    with_dbQueryDuration
      (Metrics.observe dbQueryDuration_buckets ["findById"; "products"]
         (seconds (clock e 1) (clock e 0)))
      (with_redis (Redis.setex (redis_time e 1) (Products.id_cacheKey req) 600 text)
         (with_db_log (cons (ProductFindById (params_id req)))
            (with_cacheHitRate (Metrics.inc ["get"; "miss"]) w))) in
  Products.get_by_id e req w = (Ok (mkResponse 200 product), w')
  /\ forall e2 req2,
       params_id req2 = params_id req ->
       redis_fault e2 0 = None ->
       redis_time e2 0 < expiry ->
       text <> "" ->
       JSON_parse e2 text = Reply product ->
       Products.get_by_id e2 req2 w'
       = (Ok (mkResponse 200 product),
          with_cacheHitRate (Metrics.inc ["get"; "hit"]) w').
Proof.
  intros Hup Hmiss Hup1 Hone Htruthy text expiry w'. split.
  - unfold Products.get_by_id. run_steps.
    rewrite Hup, Hmiss. cbn. rewrite Hone. cbn. rewrite Htruthy. cbn.
    rewrite Hup1. reflexivity.
  - intros e2 req2 Hid Hup2 Hlive Hne Hparse.
    apply (stored_entry_hits ProductById e2 req2 w' text product expiry);
      try assumption.
    simpl. unfold Products.id_cacheKey. rewrite Hid. unfold w'. cbn.
    unfold Redis.setex. now rewrite lookup_insert_eq.
Qed.

Lemma product_by_id_miss_stores_for_600s_witness :
  let e := env_with [] lamp "{lamp}" lamp in
  let r := Products.get_by_id e sample_request empty_world in
  r.1 = Ok (mkResponse 200 lamp)
  /\ redis r.2 = {[ "product:42" := ("{lamp}", 601000) ]}
  /\ (Products.get_by_id e sample_request r.2).1 = Ok (mkResponse 200 lamp).
Proof.
  intros e r.
  destruct (product_by_id_miss_stores_for_600s e sample_request empty_world lamp)
    as [Hrun Hnext];
    [reflexivity | reflexivity | reflexivity | reflexivity | reflexivity |].
  unfold r. rewrite Hrun. cbn [fst snd].
  rewrite (Hnext e sample_request);
    [| reflexivity | reflexivity | reflexivity | discriminate | reflexivity].
  repeat split.
Defined.

(** X14. On a miss that finds [n] orders, the orders list issues [n + 1]
    database operations: the [find], then one user lookup per order, by the
    order's [userId] and in order; every order gets the user found as
    [userDetails]; the list is stored under its key for 120 seconds and one
    duration sample is recorded. *)
Theorem orders_list_looks_up_each_user e req w orders users :
  redis_fault e 0 = None ->
  truthy_str (Redis.get (redis_time e 0) (Orders.cacheKey req) (redis w)) = false ->
  redis_fault e 1 = None ->
  db_find e (Orders.find_query req) = Reply orders ->
  users_answered e orders users ->
  let value := JArr (with_user_details users orders) in
  let w' :=
    with_dbQueryDuration
      (Metrics.observe dbQueryDuration_buckets ["find"; "orders"]
         (seconds (clock e 1) (clock e 0)))
      (with_redis (Redis.setex (redis_time e 1) (Orders.cacheKey req) 120
                     (JSON_stringify e value))
         (with_db_log (app (rev (Orders.find_query req :: user_queries orders)))
            (with_cacheHitRate (Metrics.inc ["get"; "miss"]) w))) in
  Orders.get_all e req w = (Ok (mkResponse 200 value), w')
  /\ length (db_log w') = (length (db_log w) + 1 + length orders)%nat.
Proof.
  intros Hup Hmiss Hup1 Hfind Husers value w'. split.
  - unfold Orders.get_all. run_steps.
    rewrite Hup, Hmiss. cbn. rewrite Hfind. cbn.
    rewrite (fetch_user_details_run e orders users _ Husers). cbn.
    rewrite Hup1. unfold w', with_db_log. cbn.
    now rewrite <- app_assoc.
  - unfold w'. cbn. rewrite length_app, length_app, length_rev.
    unfold user_queries. rewrite length_map. cbn [length]. lia.
Qed.

Lemma orders_list_looks_up_each_user_witness :
  let e := env_with [parcel; parcel] buyer "[orders]" (JArr []) in
  let r := Orders.get_all e sample_request empty_world in
  r.1 = Ok (mkResponse 200
              (JArr [set_prop "userDetails" buyer parcel;
                     set_prop "userDetails" buyer parcel]))
  /\ db_log r.2 = [UserFindById (JStr "u-1") "username email";
                   UserFindById (JStr "u-1") "username email";
                   OrderFind None None (Some 0) (Some 10)]
  /\ redis r.2 = {[ "orders:all:all:1:10" := ("[orders]", 121000) ]}.
Proof.
  intros e r.
  destruct (orders_list_looks_up_each_user e sample_request empty_world
              [parcel; parcel] [buyer; buyer]) as [Hrun _];
    [reflexivity | reflexivity | reflexivity | reflexivity | repeat split |].
  unfold r. rewrite Hrun. repeat split.
Defined.



(** X16. A cache entry whose text is not valid JSON is not repaired: the
    read counts a hit, answers 500 with the parser's message, and leaves the
    entry in place (the world changes by the counter only), so every read of
    that key fails in the same way until the entry expires or is
    invalidated. *)
Theorem unparsable_entry_keeps_failing (c : CachedRead) e req w text msg :
  redis_fault e 0 = None ->
  Redis.get (redis_time e 0) (cached_key c req) (redis w) = Some text ->
  text <> "" ->
  JSON_parse e text = Failure msg ->
  let failure := mkResponse 500 (JObj [("error", JStr msg)]) in
  let w' := with_cacheHitRate (Metrics.inc ["get"; "hit"]) w in
  cached_handler c e req w = (Ok failure, w')
  /\ (cached_handler c e req w').1 = Ok failure.
Proof.
  intros Hup Hget Hne Hparse failure w'.
  assert (Hrun : forall w0, redis w0 = redis w ->
            cached_handler c e req w0
            = (Ok failure, with_cacheHitRate (Metrics.inc ["get"; "hit"]) w0)).
  { intros w0 Hsame.
    rewrite (cached_handler_hit c e req w0 text Hup); [| now rewrite Hsame | exact Hne].
    now rewrite hit_branch_run, Hparse. }
  split; [now apply Hrun | now rewrite Hrun].
Qed.

Lemma unparsable_entry_keeps_failing_witness :
  let e := mkEnv (clock sample_env) (redis_time sample_env) (fun _ => None)
             (db_find sample_env) (db_count sample_env) (db_one sample_env)
             (db_save sample_env) (new_document sample_env)
             (document_assign sample_env) (JSON_stringify sample_env)
             (fun _ => Failure "Unexpected end of JSON input")
             (RegExp_error sample_env) (bcrypt_hash sample_env) in
  let w := with_redis (Redis.setex 0 "users:1:10" 60 "[{") empty_world in
  (Users.get_all e sample_request w).1
  = Ok (mkResponse 500 (JObj [("error", JStr "Unexpected end of JSON input")]))
  /\ db_log (Users.get_all e sample_request w).2 = [].
Proof.
  intros e w.
  destruct (unparsable_entry_keeps_failing UsersAll e sample_request w "[{"
              "Unexpected end of JSON input") as [Hrun _];
    [reflexivity | reflexivity | discriminate | reflexivity |].
  simpl in Hrun. rewrite Hrun. split; reflexivity.
Defined.

(** ** Writes *)

(** X17. A product creation that the database and the store accept answers
    201 with the new document, issues the one save, and invalidates the
    product lists only: every visible entry whose key starts with
    [products:] is deleted, every other entry is as before, in particular
    the entries [product:<id>] of single products. *)
Theorem product_creation_invalidates_the_lists e req w :
  let product := new_document e "Product" (body req) in
  db_save e (ProductSave product) = Reply tt ->
  redis_fault e 0 = None ->
  redis_fault e 1 = None ->
  let w' := (Products.post e req w).2 in
  (Products.post e req w).1 = Ok (mkResponse 201 product)
  /\ (forall k entry,
        redis w !! k = Some entry -> Redis.live (redis_time e 0) entry = true ->
        String.prefix "products:" k = true -> redis w' !! k = None)
  /\ (forall k, String.prefix "products:" k = false -> redis w' !! k = redis w !! k)
  /\ (forall id, redis w' !! ("product:" +:+ id) = redis w !! ("product:" +:+ id)).
Proof.
  intros product Hsave H0 H1 w'.
  destruct (products_post_invalidates e req w Hsave H0 H1) as (w1 & Hrun & Hredis).
  unfold w'. rewrite Hrun. cbn [fst snd]. split; [reflexivity |].
  destruct (invalidate_prefix_store e 0 "products:" w w1 eq_refl Hredis)
    as (Hgone & _ & Hkept).
  split; [exact Hgone |]. split; [exact Hkept |].
  intros id. apply Hkept. reflexivity.
Qed.

Lemma product_creation_invalidates_the_lists_witness :
  let w := with_redis (fun _ => {[ "products:all:0:max:1:20" := ("[lamp]", 301000);
                                  "product:42" := ("{lamp}", 601000) ]})
             empty_world in
  let req := mkRequest ∅ "" lamp in
  (Products.post sample_env req w).1 = Ok (mkResponse 201 lamp)
  /\ redis (Products.post sample_env req w).2 !! "products:all:0:max:1:20" = None
  /\ redis (Products.post sample_env req w).2 !! "product:42"
     = Some ("{lamp}", 601000).
Proof.
  intros w req.
  destruct (product_creation_invalidates_the_lists sample_env req w)
    as (Hrun & Hgone & _ & Hkept); [reflexivity | reflexivity | reflexivity |].
  split; [exact Hrun |]. split.
  - apply (Hgone "products:all:0:max:1:20" ("[lamp]", 301000)); reflexivity.
  - transitivity (redis w !! "product:42"); [apply (Hkept "42") | reflexivity].
Defined.

(** X18. A product creation is not undone when it fails half way.  If the
    save fails, the handler answers 500 and leaves the cache alone.  If the
    save succeeds and the store cannot be reached for the invalidation, the
    handler answers 500 although the product is saved, and the cached lists
    stay as they were; no duration sample is recorded in either case. *)
Theorem product_creation_failures e req w msg :
  let product := new_document e "Product" (body req) in
  let attempted := with_db_log (cons (ProductSave product)) w in
  let failure := mkResponse 500 (JObj [("error", JStr msg)]) in
  (db_save e (ProductSave product) = Failure msg ->
   Products.post e req w = (Ok failure, attempted))
  /\ (db_save e (ProductSave product) = Reply tt ->
      redis_fault e 0 = Some msg ->
      Products.post e req w = (Ok failure, attempted)).
Proof.
  intros product attempted failure. split.
  - intros Hsave. unfold Products.post. run_steps. fold product.
    rewrite Hsave. reflexivity.
  - intros Hsave Hdown. unfold Products.post, invalidate, redis_keys. run_steps.
    fold product. rewrite Hsave. cbn. rewrite Hdown. reflexivity.
Qed.

Lemma product_creation_failures_witness :
  let e := mkEnv (clock sample_env) (redis_time sample_env)
             (fun _ => Some "Connection is closed.")
             (db_find sample_env) (db_count sample_env) (db_one sample_env)
             (db_save sample_env) (new_document sample_env)
             (document_assign sample_env) (JSON_stringify sample_env)
             (JSON_parse sample_env) (RegExp_error sample_env)
             (bcrypt_hash sample_env) in
  let w := with_redis (Redis.setex 0 "products:all:0:max:1:20" 300 "[]") empty_world in
  let r := Products.post e (mkRequest ∅ "" lamp) w in
  r.1 = Ok (mkResponse 500 (JObj [("error", JStr "Connection is closed.")]))
  /\ db_log r.2 = [ProductSave lamp]
  /\ redis r.2 = redis w.
Proof.
  intros e w r.
  destruct (product_creation_failures e (mkRequest ∅ "" lamp) w
              "Connection is closed.") as [_ Hstore].
  unfold r. rewrite Hstore by reflexivity. repeat split.
Defined.

(** X19. A status update for an order the database does not find answers
    404 and leaves the cache alone.  One that succeeds answers with the
    updated order and removes from the cache the entry [order:<id>] of that
    order and every visible entry whose key starts with [orders:]; any other
    entry, such as that of another order, is as before. *)
Theorem order_update_invalidates e req w fields order :
  let q := OrderFindByIdAndUpdate (params_id req) (get_prop "status" (body req))
             (clock e 1) in
  body req = JObj fields ->
  db_one e q = Reply order ->
  (truthy order = false ->
   Orders.put_status e req w
   = (Ok (mkResponse 404 (JObj [("error", JStr "Order not found")])),
      with_db_log (cons q) w))
  /\ (truthy order = true ->
      redis_fault e 0 = None -> redis_fault e 1 = None -> redis_fault e 2 = None ->
      let w' := (Orders.put_status e req w).2 in
      (Orders.put_status e req w).1 = Ok (mkResponse 200 order)
      /\ redis w' !! Orders.id_cacheKey req = None
      /\ (forall k entry,
            redis w !! k = Some entry -> Redis.live (redis_time e 1) entry = true ->
            String.prefix "orders:" k = true -> redis w' !! k = None)
      /\ (forall k,
            k <> Orders.id_cacheKey req -> String.prefix "orders:" k = false ->
            redis w' !! k = redis w !! k)).
Proof.
  intros q Hobject Hone.
  assert (Hbody : destructure "status" (body req) = mret tt) by now rewrite Hobject.
  split.
  - intros Hfalsy. unfold Orders.put_status. unfold try_catch, mbind, M_bind.
    rewrite Hbody. cbn. fold q. unfold db_call. rewrite Hone. run_steps.
    rewrite Hfalsy. reflexivity.
  - intros Htruthy H0 H1 H2 w'.
    set (w1 := with_redis (Redis.del [Orders.id_cacheKey req])
                 (with_db_log (cons q) w)).
    destruct (invalidate_run e 1 "orders:*" w1 H1 H2) as (w2 & Hrun & Hredis & _).
    assert (Hput : Orders.put_status e req w
                   = (Ok (mkResponse 200 order),
                      with_dbQueryDuration
                        (Metrics.observe dbQueryDuration_buckets ["update"; "orders"]
                           (seconds (clock e 2) (clock e 0))) w2)).
    { unfold Orders.put_status. apply try_catch_ok.
      erewrite bind_ok by (rewrite Hbody; reflexivity).
      erewrite bind_ok by (unfold db_call; fold q; rewrite Hone; reflexivity).
      rewrite Htruthy. cbn [negb].
      erewrite bind_ok by (unfold redis_del, redis_write; rewrite H0; reflexivity).
      erewrite bind_ok by (exact Hrun).
      reflexivity. }
    unfold w'. rewrite Hput. cbn [fst snd]. split; [reflexivity |].
    change (redis (with_dbQueryDuration _ w2)) with (redis w2).
    destruct (invalidate_prefix_store e 1 "orders:" w1 w2 eq_refl Hredis)
      as (Hgone & _ & Hkept).
    assert (Hw1 : forall k, redis w1 !! k
                  = if decide (Orders.id_cacheKey req = k) then None else redis w !! k).
    { intros k. unfold w1. cbn. case_decide as Hk.
      - subst k. apply lookup_delete_eq.
      - now apply lookup_delete_ne. }
    split; [| split].
    + rewrite (Hkept (Orders.id_cacheKey req)) by reflexivity.
      rewrite Hw1. now rewrite decide_True.
    + intros k entry Hk Hlive Hpre.
      apply (Hgone k entry); [| exact Hlive | exact Hpre].
      rewrite Hw1. rewrite decide_False; [exact Hk |].
      intros <-. unfold Orders.id_cacheKey in Hpre. discriminate.
    + intros k Hne Hpre. rewrite (Hkept k Hpre), Hw1. now rewrite decide_False.
Qed.

Lemma order_update_invalidates_witness :
  let e := env_with [] parcel "{}" parcel in
  let req := mkRequest ∅ "7" (JObj [("status", JStr "shipped")]) in
  let w := with_redis (fun _ => {[ "order:9" := ("{}", 5000);
                                  "order:7" := ("{}", 5000);
                                  "orders:all:all:1:10" := ("[]", 120000) ]})
             empty_world in
  let w' := (Orders.put_status e req w).2 in
  (Orders.put_status e req w).1 = Ok (mkResponse 200 parcel)
  /\ redis w' !! "order:7" = None
  /\ redis w' !! "orders:all:all:1:10" = None
  /\ redis w' !! "order:9" = Some ("{}", 5000).
Proof.
  intros e req w w'.
  destruct (order_update_invalidates e req w [("status", JStr "shipped")] parcel)
    as [_ Hfound]; [reflexivity | reflexivity |].
  destruct Hfound as (Hrun & Hown & Hlists & Hkept);
    [reflexivity | reflexivity | reflexivity | reflexivity |].
  split; [exact Hrun |]. split; [exact Hown |]. split.
  - apply (Hlists "orders:all:all:1:10" ("[]", 120000)); reflexivity.
  - transitivity (redis w !! "order:9");
      [apply (Hkept "order:9"); [discriminate | reflexivity] | reflexivity].
Defined.

(** X20. The creation of a user (here without bottleneck scenario) leaks
    before it saves.  When hashing the password fails, the handler answers
    500 and nothing has changed.  When it succeeds, the request body is
    appended 1000-fold to the leaked array and the gauge is set to 100000
    times the array's length, whatever happens next: also when the save then
    fails, in which case the handler answers 500 and the cache is not
    invalidated.  The document saved carries the hash, not the password. *)
Theorem user_creation_leaks_before_saving fuel e req w fields :
  body req = JObj fields ->
  truthy (get_prop "scenario" (body req)) = false ->
  (forall msg,
     bcrypt_hash e (get_prop "password" (body req)) 12 = Failure msg ->
     Users.post fuel e req w = (Ok (mkResponse 500 (JObj [("error", JStr msg)])), w))
  /\ (forall hash,
        bcrypt_hash e (get_prop "password" (body req)) 12 = Reply hash ->
        let profile := get_prop "profile" (body req) in
        let user :=
          new_document e "User"
            (JObj [("username", get_prop "username" (body req));
                   ("email", get_prop "email" (body req));
                   ("password", JStr hash);
                   ("profile", if truthy profile then profile else JObj [])]) in
        let w' := (Users.post fuel e req w).2 in
        leakyArray w' = leakyArray w ++ [JArr (repeat (body req) 1000)]
        /\ memoryLeakGauge w' = Z.of_nat (length (leakyArray w')) * 100000
        /\ db_log w' = UserSave user :: db_log w
        /\ forall msg,
             db_save e (UserSave user) = Failure msg ->
             Users.post fuel e req w
             = (Ok (mkResponse 500 (JObj [("error", JStr msg)])),
                with_db_log (cons (UserSave user)) (with_leak (body req) w))).
Proof.
  intros Hobject Hplain.
  assert (Hbody : destructure "username" (body req) = mret tt) by now rewrite Hobject.
  split.
  - intros msg Hhash. unfold Users.post. unfold try_catch, mbind, M_bind.
    rewrite Hbody, Hplain. cbn. rewrite Hhash. reflexivity.
  - intros hash Hhash profile user w'.
    set (wl := with_db_log (cons (UserSave user)) (with_leak (body req) w)).
    assert (Hsplit :
      Users.post fuel e req w
      = try_catch
          (of_reply (db_save e (UserSave user));;
           invalidate e 0 "users:*";;
           dbQueryDuration_observe ["insert"; "users"] (seconds (clock e 1) (clock e 0));;
           res_status_json 201 user)
          internal_error wl).
    { unfold Users.post. unfold try_catch, mbind, M_bind.
      rewrite Hbody, Hplain. cbn. rewrite Hhash. reflexivity. }
    assert (Hframe : leakyArray w' = leakyArray wl
                     /\ memoryLeakGauge w' = memoryLeakGauge wl
                     /\ db_log w' = db_log wl).
    { unfold w'. rewrite Hsplit.
      set (R := fun a b : World =>
                  leakyArray b = leakyArray a
                  /\ memoryLeakGauge b = memoryLeakGauge a
                  /\ db_log b = db_log a).
      assert (Hrefl : forall a, R a a) by (intros a; now repeat split).
      assert (Htrans : forall a b c, R a b -> R b c -> R a c).
      { intros a b c (H1 & H2 & H3) (H1' & H2' & H3'). repeat split; congruence. }
      refine (proj1 (answers_try_catch R Htrans False (fun _ => True) _ _ _ _ wl)).
      - apply (within_seq R Htrans); [apply (within_of_reply R Hrefl) | intros _].
        apply (within_seq R Htrans);
          [apply (within_invalidate R Hrefl Htrans); intros ks a; exact (Hrefl a)
          | intros _].
        apply (within_seq R Htrans);
          [apply within_modify; intros a; exact (Hrefl a) | intros _].
        now apply (within_ret R Hrefl).
      - intros msg. now apply (answers_internal_error R Hrefl). }
    destruct Hframe as (Hl & Hg & Hd).
    split; [exact Hl |]. split.
    + rewrite Hg, Hl. cbn. lia.
    + split; [exact Hd |].
      intros msg Hsave. rewrite Hsplit. unfold try_catch, mbind, M_bind.
      rewrite Hsave. reflexivity.
Qed.

Lemma user_creation_leaks_before_saving_witness :
  let req := mkRequest ∅ "" (JObj [("username", JStr "ann"); ("password", JStr "pw")]) in
  let w' := (Users.post 0 sample_env req empty_world).2 in
  length (leakyArray w') = 1%nat
  /\ memoryLeakGauge w' = 100000
  /\ db_log w'
     = [UserSave (JObj [("username", JStr "ann"); ("email", JUndefined);
                        ("password", JStr "$2b$12$hash"); ("profile", JObj [])])].
Proof.
  intros req w'.
  destruct (user_creation_leaks_before_saving 0 sample_env req empty_world
              [("username", JStr "ann"); ("password", JStr "pw")])
    as [_ Hleak]; [reflexivity | reflexivity |].
  destruct (Hleak "$2b$12$hash" eq_refl) as (Hl & Hg & _ & _).
  fold w' in Hl, Hg. split; [now rewrite Hl |]. split; [| reflexivity].
  rewrite Hg, Hl. reflexivity.
Defined.

(** ** Order creation *)

Lemma price_items_run e items : forall products total w,
  products_answered e items products ->
  Orders.price_items e items total w
  = (Ok (with_prices products items, total_from total products items),
     with_db_log (app (rev (product_queries items))) w).
Proof.
  induction items as [| item rest IH]; intros [| product products] total w H;
    simpl in H; try contradiction.
  - simpl. unfold mret, M_ret. f_equal. now destruct w.
  - destruct H as (Hu & Hn & Hone & Hrest).
    simpl. erewrite bind_ok
      by (unfold Orders.productId; destruct item; try reflexivity; contradiction).
    unfold db_call at 1. rewrite Hone.
    unfold mbind, M_bind, modify, of_reply, mret, M_ret in *. cbn.
    rewrite (IH products _ _ Hrest). cbn. f_equal.
    unfold with_db_log. cbn. f_equal. now rewrite <- app_assoc.
Qed.


(** X27. An order whose items are all looked up, saved by the database and
    invalidated by the store: the handler looks up the product of each item
    once, in the order of the items, gives each item whose product exists
    that product's price, saves the order built from the priced items and
    the total over the products found, deletes the visible cache entries
    whose key starts with [orders:] and no other, records one sample under
    (insert, orders), and answers 201 with the order. *)
Theorem order_creation_prices_each_item fuel e new_Order req w items products :
  get_prop "items" (body req) = JArr items ->
  truthy (get_prop "scenario" (body req)) = false ->
  products_answered e items products ->
  let order := new_Order (get_prop "userId" (body req))
                 (JArr (with_prices products items))
                 (total_from Orders.Zero products items)
                 (get_prop "shippingAddress" (body req)) in
  db_save e (OrderSave order) = Reply tt ->
  redis_fault e 0 = None ->
  redis_fault e 1 = None ->
  let w' := (Orders.post fuel e new_Order req w).2 in
  (Orders.post fuel e new_Order req w).1 = Ok (mkResponse 201 order)
  /\ db_log w' = OrderSave order :: rev (product_queries items) ++ db_log w
  /\ dbQueryDuration w'
     = Metrics.observe dbQueryDuration_buckets ["insert"; "orders"]
         (seconds (clock e 1) (clock e 0)) (dbQueryDuration w)
  /\ (forall k entry,
        redis w !! k = Some entry -> Redis.live (redis_time e 0) entry = true ->
        String.prefix "orders:" k = true -> redis w' !! k = None)
  /\ (forall k, String.prefix "orders:" k = false -> redis w' !! k = redis w !! k).
Proof.
  intros Hitems Hscenario Hproducts order Hsave H0 H1 w'.
  assert (Hbody : destructure "userId" (body req) = mret tt).
  { destruct (body req); try discriminate; reflexivity. }
  set (w1 := with_db_log (cons (OrderSave order))
               (with_db_log (app (rev (product_queries items))) w)).
  destruct (invalidate_run e 0 "orders:*" w1 H0 H1) as (w2 & Hrun & Hredis & _ & Hlog).
  assert (Hpost : Orders.post fuel e new_Order req w
                  = (Ok (mkResponse 201 order),
                     with_dbQueryDuration
                       (Metrics.observe dbQueryDuration_buckets ["insert"; "orders"]
                          (seconds (clock e 1) (clock e 0))) w2)).
  { unfold Orders.post. apply try_catch_ok.
    erewrite bind_ok by (rewrite Hbody; reflexivity).
    rewrite Hscenario, Hitems.
    erewrite bind_ok by reflexivity.
    erewrite bind_ok by reflexivity.
    erewrite bind_ok by (apply price_items_run; exact Hproducts).
    cbn [fst snd]. fold order.
    erewrite bind_ok by (unfold db_call; rewrite Hsave; reflexivity).
    erewrite bind_ok by (exact Hrun).
    reflexivity. }
  unfold w'. rewrite Hpost. cbn [fst snd]. split; [reflexivity |].
  split; [exact Hlog |].
  change (redis (with_dbQueryDuration _ w2)) with (redis w2).
  destruct (invalidate_prefix_store e 0 "orders:" w1 w2 eq_refl Hredis)
    as (Hgone & _ & Hkept).
  split; [| split; [exact Hgone | exact Hkept]].
  cbn. f_equal.
  destruct (invalidate_run e 0 "orders:*" w1 H0 H1) as (w3 & Hrun3 & _).
  rewrite Hrun in Hrun3. injection Hrun3 as <-.
  unfold invalidate, redis_keys, redis_read, mbind, M_bind in Hrun.
  rewrite H0 in Hrun.
  destruct (negb _) in Hrun.
  - unfold redis_del in Hrun. destruct (Redis.keys _ _ _); [discriminate |].
    unfold redis_write in Hrun. rewrite H1 in Hrun. now injection Hrun as <-.
  - now injection Hrun as <-.
Qed.

Lemma order_creation_prices_each_item_witness :
  let item := JObj [("productId", JStr "p-1"); ("quantity", JNum 2)] in
  let priced := JObj [("productId", JStr "p-1"); ("quantity", JNum 2);
                      ("price", JNum 20)] in
  let req := mkRequest ∅ "" (JObj [("userId", JStr "u-1"); ("items", JArr [item])]) in
  let e := env_with [] lamp "[]" (JArr []) in
  let w := with_redis (fun _ => {[ "orders:all:all:1:10" := ("[]", 120000);
                                  "order:7" := ("{}", 300000) ]}) empty_world in
  let order := plain_order (JStr "u-1") (JArr [priced])
                 (Orders.PlusTimes Orders.Zero (JNum 20) (JNum 2)) JUndefined in
  (Orders.post 0 e plain_order req w).1 = Ok (mkResponse 201 order)
  /\ db_log (Orders.post 0 e plain_order req w).2
     = [OrderSave order; ProductFindByItem (JStr "p-1")]
  /\ redis (Orders.post 0 e plain_order req w).2 !! "orders:all:all:1:10" = None
  /\ redis (Orders.post 0 e plain_order req w).2 !! "order:7" = Some ("{}", 300000).
Proof.
  intros item priced req e w order.
  destruct (order_creation_prices_each_item 0 e plain_order req w [item] [lamp])
    as (Hrun & Hlog & _ & Hgone & Hkept);
    [reflexivity | reflexivity | | reflexivity | reflexivity | reflexivity |].
  { simpl. repeat split; discriminate. }
  split; [exact Hrun |]. split; [exact Hlog |]. split.
  - apply (Hgone "orders:all:all:1:10" ("[]", 120000)); reflexivity.
  - transitivity (redis w !! "order:7"); [now apply Hkept | reflexivity].
Defined.

(** ** More on the bottleneck scenarios *)

(** X21. Apart from [__proto__], [__defineGetter__] and [__defineSetter__],
    every name that is not a scenario is skipped by [createBottleneck],
    whatever else is passed: it returns without having changed anything.
    This covers the other names [scenarios] inherits, such as [toString] and
    [constructor], whose call is harmless. *)
Theorem createBottleneck_skips_other_names fuel e key rest n w :
  own_property key = None ->
  key <> "__proto__" -> key <> "__defineGetter__" -> key <> "__defineSetter__" ->
  createBottleneck fuel e (JStr key :: rest) n w = (Ok n, w).
Proof.
  intros Hown Hp Hg Hs. unfold createBottleneck, scenarios. simpl.
  rewrite Hown. unfold inherited_property.
  repeat match goal with
         | |- context [String.eqb key ?name] =>
             destruct (String.eqb_spec key name); [subst key |]
         end;
    try contradiction; reflexivity.
Qed.

Lemma createBottleneck_skips_other_names_witness :
  createBottleneck 0 sample_env [JStr "toString"] 3 empty_world = (Ok 3%nat, empty_world)
  /\ createBottleneck 0 sample_env [JStr "cpu"; JNum 9] 3 empty_world
     = (Ok 3%nat, empty_world).
Proof.
  split.
  - apply createBottleneck_skips_other_names; [reflexivity | discriminate ..].
  - apply createBottleneck_skips_other_names; [reflexivity | discriminate ..].
Defined.

Lemma iter_pbkdf2 k : forall w,
  pbkdf2_calls (Nat.iter k with_pbkdf2 w) = (pbkdf2_calls w + k)%nat
  /\ redis (Nat.iter k with_pbkdf2 w) = redis w
  /\ db_log (Nat.iter k with_pbkdf2 w) = db_log w.
Proof.
  induction k as [| k IH]; intros w; simpl.
  - repeat split. lia.
  - destruct (IH w) as (Hc & Hr & Hd). repeat split; [lia | exact Hr | exact Hd].
Qed.

(** X22. The CPU-intensive scenario derives keys until the clock shows its
    duration (1000 ms unless given) elapsed: if the first reading at or past
    the duration is the k-th after the start, it runs exactly [k] key
    derivations and returns after that reading; with a duration of zero or
    less it runs none. *)
Theorem cpuIntensive_derives_until_elapsed fuel e duration n w k :
  let d := default 1000 duration in
  (forall i, (S n <= i < S n + k)%nat -> clock e i - clock e n < d) ->
  d <= clock e (S n + k) - clock e n ->
  (k < fuel)%nat ->
  exists w',
    cpuIntensive fuel e duration n w = (Ok (S (S n + k)), w')
    /\ pbkdf2_calls w' = (pbkdf2_calls w + k)%nat
    /\ redis w' = redis w /\ db_log w' = db_log w.
Proof.
  intros d Hbefore Hat Hfuel.
  exists (Nat.iter k with_pbkdf2 w). split; [| apply iter_pbkdf2].
  unfold cpuIntensive. fold d.
  apply (busy_loop_runs e (clock e n) d with_pbkdf2 k fuel (S n) w); assumption.
Qed.

Lemma cpuIntensive_derives_until_elapsed_witness :
  exists w',
    cpuIntensive 20 sample_env (Some 250) 2 empty_world = (Ok 6%nat, w')
    /\ pbkdf2_calls w' = 2%nat.
Proof.
  destruct (cpuIntensive_derives_until_elapsed 20 sample_env (Some 250) 2
              empty_world 2) as (w' & Hrun & Hcalls & _).
  - intros i Hi. assert (Hcases : i = 3%nat \/ i = 4%nat) by lia.
    destruct Hcases as [-> | ->]; reflexivity.
  - vm_compute. discriminate.
  - lia.
  - exists w'. split; [exact Hrun | exact Hcalls].
Defined.

Lemma busy_loop_returns_late e start duration body : forall fuel n w m w',
  busy_loop fuel e start duration body n w = (Ok m, w') ->
  (n < m)%nat
  /\ duration <= clock e (m - 1) - start
  /\ forall i, (n <= i < m - 1)%nat -> clock e i - start < duration.
Proof.
  induction fuel as [| fuel IH]; intros n w m w' H; simpl in H; [discriminate |].
  destruct (Z.ltb_spec (clock e n - start) duration) as [Hlt | Hge].
  - unfold mbind, M_bind in H.
    destruct (body w) as [[[] | msg |] w1]; try discriminate.
    destruct (IH (S n) w1 m w' H) as (Hnm & Hat & Hbefore).
    split; [lia |]. split; [exact Hat |].
    intros i Hi. destruct (decide (i = n)) as [-> | Hne]; [exact Hlt |].
    apply Hbefore. lia.
  - injection H as <- <-. simpl. rewrite Nat.sub_0_r.
    split; [lia |]. split; [lia |]. intros i Hi. lia.
Qed.

Lemma idle_loop_changes_nothing e start duration : forall fuel n w m w',
  busy_loop fuel e start duration (mret tt) n w = (Ok m, w') -> w' = w.
Proof.
  induction fuel as [| fuel IH]; intros n w m w' H; simpl in H; [discriminate |].
  destruct (clock e n - start <? duration).
  - apply (IH (S n) w m w'). exact H.
  - now injection H as _ <-.
Qed.

(** X23. Neither busy loop returns early: whenever the CPU-intensive or the
    loop-blocking scenario returns, the last clock reading it took shows at
    least its duration elapsed since its start, and every reading before that
    one showed less.  The loop-blocking scenario changes nothing in the
    world. *)
Theorem busy_scenarios_never_return_early fuel e duration n w m w' :
  (cpuIntensive fuel e duration n w = (Ok m, w') ->
   (S n < m)%nat
   /\ default 1000 duration <= clock e (m - 1) - clock e n
   /\ forall i, (S n <= i < m - 1)%nat -> clock e i - clock e n < default 1000 duration)
  /\ (blockEventLoop fuel e duration n w = (Ok m, w') ->
      (S n < m)%nat
      /\ default 500 duration <= clock e (m - 1) - clock e n
      /\ (forall i, (S n <= i < m - 1)%nat ->
            clock e i - clock e n < default 500 duration)
      /\ w' = w).
Proof.
  split; intros H.
  - exact (busy_loop_returns_late e _ _ _ fuel (S n) w m w' H).
  - destruct (busy_loop_returns_late e _ _ _ fuel (S n) w m w' H) as (H1 & H2 & H3).
    repeat split; try assumption.
    exact (idle_loop_changes_nothing e _ _ fuel (S n) w m w' H).
Qed.

Lemma busy_scenarios_never_return_early_witness :
  blockEventLoop 20 sample_env (Some 250) 2 empty_world = (Ok 6%nat, empty_world)
  /\ 250 <= clock sample_env 5 - clock sample_env 2.
Proof.
  assert (Hrun : blockEventLoop 20 sample_env (Some 250) 2 empty_world
                 = (Ok 6%nat, empty_world)) by reflexivity.
  split; [exact Hrun |].
  destruct (busy_scenarios_never_return_early 20 sample_env (Some 250) 2
              empty_world 6 empty_world) as [_ Hblock].
  destruct (Hblock Hrun) as (_ & Hlate & _). exact Hlate.
Defined.

(** X24. The memory-intensive scenario asks for an array of 131072
    elements per megabyte (50 unless given).  For a negative size or one of
    32768 MB or more the length is no array length: [new Array] throws a
    RangeError, and nothing has been built or awaited.  Whenever the scenario
    returns, the size was between 0 and 32767 MB, one array of that length
    has been built and one timer of 100 ms awaited. *)
Theorem memoryIntensive_outcomes e sizeMB n w :
  let size := default 50 sizeMB in
  (size < 0 \/ 32768 <= size ->
   memoryIntensive e sizeMB n w = (Throw "Invalid array length", w))
  /\ (forall m w',
        memoryIntensive e sizeMB n w = (Ok m, w') ->
        0 <= size < 32768
        /\ m = n
        /\ w' = with_timer 100 (with_allocation (size * 131072) w)).
Proof.
  intros size.
  assert (Hlen : size * 1024 * 1024 / 8 = size * 131072).
  { replace (size * 1024 * 1024) with (size * 131072 * 8) by lia.
    now apply Z.div_mul. }
  unfold memoryIntensive, new_Array. fold size. rewrite Hlen.
  split.
  - intros Hsize.
    destruct (Z.leb_spec 0 (size * 131072)); [| reflexivity].
    destruct (Z.ltb_spec (size * 131072) (2 ^ 32)); [lia | reflexivity].
  - intros m w'.
    destruct (Z.leb_spec 0 (size * 131072)); [| discriminate].
    destruct (Z.ltb_spec (size * 131072) (2 ^ 32)); [| discriminate].
    intros [= <- <-]. split; [lia | split; reflexivity].
Qed.

Lemma memoryIntensive_outcomes_witness :
  memoryIntensive sample_env (Some 32768) 0 empty_world
    = (Throw "Invalid array length", empty_world)
  /\ memoryIntensive sample_env (Some (-1)) 0 empty_world
     = (Throw "Invalid array length", empty_world)
  /\ allocated (memoryIntensive sample_env None 0 empty_world).2 = [6553600].
Proof.
  destruct (memoryIntensive_outcomes sample_env (Some 32768) 0 empty_world)
    as [Hbig _].
  destruct (memoryIntensive_outcomes sample_env (Some (-1)) 0 empty_world)
    as [Hneg _].
  destruct (memoryIntensive_outcomes sample_env None 0 empty_world) as [_ Hok].
  split; [apply Hbig; simpl; lia | split; [apply Hneg; simpl; lia |]].
  destruct (Hok 0%nat (memoryIntensive sample_env None 0 empty_world).2 eq_refl)
    as (_ & _ & Hw).
  rewrite Hw. reflexivity.
Defined.

(** ** The search *)

(** X25. The search answers 500 without reaching the database when its
    text is not a valid regular expression; when the database fails it
    answers 500 with the database's message and records no duration; when
    the database answers it responds with the users found and records exactly
    one duration sample under (search, users).  In no case does it read or
    write the cache or count a cache operation. *)
Theorem search_outcomes e req w :
  let q := query req !! "q" in
  let r := Users.get_search e req w in
  let failure msg := mkResponse 500 (JObj [("error", JStr msg)]) in
  (forall msg, RegExp_error e q = Some msg -> r = (Ok (failure msg), w))
  /\ (forall msg,
        RegExp_error e q = None -> db_find e (UserSearch q) = Failure msg ->
        r = (Ok (failure msg), with_db_log (cons (UserSearch q)) w))
  /\ (forall users,
        RegExp_error e q = None -> db_find e (UserSearch q) = Reply users ->
        r = (Ok (mkResponse 200 (JArr users)),
             with_dbQueryDuration
               (Metrics.observe dbQueryDuration_buckets ["search"; "users"]
                  (seconds (clock e 1) (clock e 0)))
               (with_db_log (cons (UserSearch q)) w)))
  /\ redis r.2 = redis w /\ cacheHitRate r.2 = cacheHitRate w.
Proof.
  intros q r failure. unfold r, Users.get_search. fold q. run_steps.
  destruct (RegExp_error e q) as [bad |]; cbn.
  - repeat split; intros; simplify_eq; reflexivity.
  - destruct (db_find e (UserSearch q)) as [users | msg]; cbn;
      repeat split; intros; simplify_eq; reflexivity.
Qed.

Lemma search_outcomes_witness :
  let e := mkEnv (clock sample_env) (redis_time sample_env) (redis_fault sample_env)
             (db_find sample_env) (db_count sample_env) (db_one sample_env)
             (db_save sample_env) (new_document sample_env)
             (document_assign sample_env) (JSON_stringify sample_env)
             (JSON_parse sample_env)
             (fun _ => Some "Invalid regular expression: /(/: Unterminated group")
             (bcrypt_hash sample_env) in
  Users.get_search e (mkRequest {["q" := "("]} "" JUndefined) empty_world
  = (Ok (mkResponse 500
           (JObj [("error",
                   JStr "Invalid regular expression: /(/: Unterminated group")])),
     empty_world).
Proof.
  intros e.
  destruct (search_outcomes e (mkRequest {["q" := "("]} "" JUndefined) empty_world)
    as [Hbad _].
  apply Hbad. reflexivity.
Defined.
